(** * wobblyjelly: grid mesh, velocity estimator and displacement shader

    A shallow embedding of [src/wobblyjelly/main.cpp].  C++ [int] and
    [GLuint] are integers with their 32-bit wrap-around written out, C++
    [float]/[double] and GLSL [float] are IEEE-754 binary32/binary64 values
    ([spec_float] with round-to-nearest-even), the OpenGL context is an
    explicit state that records the commands it receives. *)

From Stdlib Require Import ZArith List Bool Lia String.
From Stdlib Require Import Floats.SpecFloat.
Import ListNotations.
Local Open Scope Z_scope.

(** ** Machine integers *)

Definition INT_MAX : Z := 2147483647.

(** Value of an [int] expression: two's complement wrap-around. *)
Definition wrap_int (z : Z) : Z := (z + 2147483648) mod 4294967296 - 2147483648.

(** Conversion to [GLuint] (unsigned 32 bits). *)
Definition to_GLuint (z : Z) : Z := z mod 4294967296.

(** Values taken by [i] in [for (int i = 0; i < n; ++i)].  A loop written
    [i <= n] is [int_range (n + 1)]; this is the C++ loop as long as
    [n < INT_MAX], where the counter cannot overflow. *)
Definition int_range (n : Z) : list Z := map Z.of_nat (seq 0 (Z.to_nat n)).

(** ** Floating point *)

(** C++ [float] and GLSL [float]: binary32. *)
Module F32.
Definition prec : Z := 24.
Definition emax : Z := 128.
Definition t : Type := spec_float.
Definition add : t -> t -> t := SFadd prec emax.
Definition sub : t -> t -> t := SFsub prec emax.
Definition mul : t -> t -> t := SFmul prec emax.
Definition div : t -> t -> t := SFdiv prec emax.
Definition sqrt : t -> t := SFsqrt prec emax.
Definition opp : t -> t := SFopp.
Definition leb : t -> t -> bool := SFleb.
Definition ltb : t -> t -> bool := SFltb.
Definition eqb : t -> t -> bool := SFeqb.
(** [(float) z] for an integer [z], and the literal [m * 2^e]. *)
Definition of_Z (z : Z) : t := binary_normalize prec emax z 0 false.
Definition lit (m e : Z) : t := binary_normalize prec emax m e false.
(** A decimal literal [n / d], rounded once (division is correctly
    rounded and [n], [d] are exact). *)
Definition dec (n d : Z) : t := div (of_Z n) (of_Z d).
Definition zero : t := S754_zero false.
Definition one : t := of_Z 1.
Definition half : t := lit 1 (-1).
End F32.

(** C++ [double]: binary64. *)
Module F64.
Definition prec : Z := 53.
Definition emax : Z := 1024.
Definition t : Type := spec_float.
Definition sub : t -> t -> t := SFsub prec emax.
Definition div : t -> t -> t := SFdiv prec emax.
Definition ltb : t -> t -> bool := SFltb.
Definition eqb : t -> t -> bool := SFeqb.
Definition of_Z (z : Z) : t := binary_normalize prec emax z 0 false.
Definition dec (n d : Z) : t := div (of_Z n) (of_Z d).
Definition zero : t := S754_zero false.
(** Promotion [float -> double] (exact). *)
Definition of_F32 (x : F32.t) : t :=
  match x with
  | S754_finite s m e => binary_round prec emax s m e
  | _ => x
  end.
(** Conversion [double -> float] (rounds to nearest even). *)
Definition to_F32 (x : t) : F32.t :=
  match x with
  | S754_finite s m e => binary_round F32.prec F32.emax s m e
  | _ => x
  end.
(** [std::max(a, b)] is [(a < b) ? b : a]. *)
Definition max (a b : t) : t := if ltb a b then b else a.
End F64.

Definition is_nan (x : spec_float) : bool :=
  match x with S754_nan => true | _ => false end.

Definition is_finite (x : spec_float) : bool :=
  match x with S754_zero _ | S754_finite _ _ _ => true | _ => false end.

(** ** Data model *)

Record JellyVertex := mkVertex { x : F32.t; y : F32.t; u : F32.t; v : F32.t }.

(** ** generateGrid: the vertex and index arrays *)

Section Grid.
Variables (cols rows : Z) (winW winH : F32.t).

(** Body of the vertex loop for column [c] of row [r]. *)
Definition grid_vertex (r c : Z) : JellyVertex :=
  let tx := F32.div (F32.of_Z c) (F32.of_Z cols) in
  let ty := F32.div (F32.of_Z r) (F32.of_Z rows) in
  let px := F32.mul (F32.sub tx F32.half) winW in
  let py := F32.mul (F32.sub ty F32.half) winH in
  {| x := px; y := py; u := tx; v := F32.sub F32.one ty |}.

(** [verts] after the first pair of loops. *)
Definition grid_verts : list JellyVertex :=
  flat_map (fun r => map (grid_vertex r) (int_range (cols + 1)))
           (int_range (rows + 1)).

(** The six [push_back]s of one cell; [int] arithmetic, stored as
    [GLuint]. *)
Definition grid_cell (r c : Z) : list Z :=
  let i0 := wrap_int (wrap_int (r * wrap_int (cols + 1)) + c) in
  let i1 := wrap_int (i0 + 1) in
  let i2 := wrap_int (i0 + wrap_int (cols + 1)) in
  let i3 := wrap_int (i2 + 1) in
  map to_GLuint [i0; i2; i1; i1; i2; i3].

(** [idx] after the second pair of loops. *)
Definition grid_idx : list Z :=
  flat_map (fun r => flat_map (grid_cell r) (int_range cols))
           (int_range rows).
End Grid.


(** ** The OpenGL context

    OpenGL is an external collaborator: the model keeps the next unused
    object name and the commands received, in order. *)

Definition GLuint : Type := Z.

Inductive GLCall : Type :=
| CreateShader (kind : string) (name : GLuint)
| ShaderSource (shader : GLuint) (src : string)
| CompileShader (shader : GLuint)
| CreateProgram (name : GLuint)
| AttachShader (prog shader : GLuint)
| LinkProgram (prog : GLuint)
| DeleteShader (shader : GLuint)
| GenVertexArrays (name : GLuint)
| GenBuffers (name : GLuint)
| BindVertexArray (vao : GLuint)
| BindArrayBuffer (vbo : GLuint)
| ArrayBufferData (verts : list JellyVertex)
| BindElementArrayBuffer (ebo : GLuint)
| ElementArrayBufferData (idx : list Z)
| EnableVertexAttribArray (index : Z)
| VertexAttribPointer (index size : Z) (field : string)
| UseProgram (prog : GLuint)
| Uniform2f (prog : GLuint) (name : string) (a b : F32.t)
| Uniform1f (prog : GLuint) (name : string) (a : F32.t)
| Uniform1i (prog : GLuint) (name : string) (i : Z)
| ActiveTexture0
| BindTexture2D (tex : GLuint)
| EnableBlend
| BlendFuncSrcAlphaOneMinusSrcAlpha
| DrawElementsTriangles (count : Z).

Record GLContext := mkGL { gl_fresh : GLuint; gl_log : list GLCall }.

(** Commands run in a state monad over the context. *)
Definition GL (A : Type) : Type := GLContext -> A * GLContext.

Definition ret {A} (a : A) : GL A := fun g => (a, g).
Definition bind {A B} (m : GL A) (k : A -> GL B) : GL B :=
  fun g => let (a, g') := m g in k a g'.

Notation "x <- m ;; k" := (bind m (fun x => k))
  (at level 61, m at next level, right associativity).
Notation "m ;;; k" := (bind m (fun _ => k))
  (at level 61, right associativity).

Definition emit (c : GLCall) : GL unit :=
  fun g => (tt, {| gl_fresh := gl_fresh g; gl_log := gl_log g ++ [c] |}).

(** [glGen*] / [glCreate*]: hand out the next unused name. *)
Definition gen (mk : GLuint -> GLCall) : GL GLuint :=
  fun g => (gl_fresh g,
            {| gl_fresh := gl_fresh g + 1; gl_log := gl_log g ++ [mk (gl_fresh g)] |}).

(** [if (!h) h = <fresh name>]. *)
Definition gen_if_zero (h : GLuint) (mk : GLuint -> GLCall) : GL GLuint :=
  if h =? 0 then gen mk else ret h.

(** ** Per-window state *)

Record WindowJellyState := mkState {
  dragging : bool;
  lastX : F32.t; lastY : F32.t;
  vx : F32.t; vy : F32.t;
  lastTime : F64.t;
  vao : GLuint; vbo : GLuint; ebo : GLuint;
  shader : GLuint;
  gridCols : Z; gridRows : Z;
  indexCount : Z;
  texId : GLuint
}.

(** The member initialisers of [struct WindowJellyState]. *)
Definition default_state : WindowJellyState :=
  {| dragging := false;
     lastX := F32.zero; lastY := F32.zero;
     vx := F32.zero; vy := F32.zero;
     lastTime := F64.zero;
     vao := 0; vbo := 0; ebo := 0;
     shader := 0;
     gridCols := 20; gridRows := 12;
     indexCount := 0;
     texId := 0 |}.

Definition vertexShaderSrc : string := "vertexShaderSrc".
Definition fragmentShaderSrc : string := "fragmentShaderSrc".

(** The [compile] lambda of [compileShaderProgram]; the status query and
    the message it may write to [std::cerr] change neither the state nor the
    returned name and are left out. *)
Definition compile (kind src : string) : GL GLuint :=
  s <- gen (CreateShader kind) ;;
  emit (ShaderSource s src) ;;;
  emit (CompileShader s) ;;;
  ret s.

Definition compileShaderProgram (vsSrc fsSrc : string) : GL GLuint :=
  vs <- compile "GL_VERTEX_SHADER" vsSrc ;;
  fs <- compile "GL_FRAGMENT_SHADER" fsSrc ;;
  prog <- gen CreateProgram ;;
  emit (AttachShader prog vs) ;;;
  emit (AttachShader prog fs) ;;;
  emit (LinkProgram prog) ;;;
  emit (DeleteShader vs) ;;;
  emit (DeleteShader fs) ;;;
  ret prog.

(** [generateGrid(st, cols, rows, winW, winH)]: builds both arrays, uploads
    them and records the grid in [st]. *)
Definition generateGrid (st : WindowJellyState) (cols rows : Z) (winW winH : F32.t)
  : GL WindowJellyState :=
  let verts := grid_verts cols rows winW winH in
  let idx := grid_idx cols rows in
  vao' <- gen_if_zero (vao st) GenVertexArrays ;;
  vbo' <- gen_if_zero (vbo st) GenBuffers ;;
  ebo' <- gen_if_zero (ebo st) GenBuffers ;;
  emit (BindVertexArray vao') ;;;
  emit (BindArrayBuffer vbo') ;;;
  emit (ArrayBufferData verts) ;;;
  emit (BindElementArrayBuffer ebo') ;;;
  emit (ElementArrayBufferData idx) ;;;
  emit (EnableVertexAttribArray 0) ;;;
  emit (VertexAttribPointer 0 2 "x") ;;;
  emit (EnableVertexAttribArray 1) ;;;
  emit (VertexAttribPointer 1 2 "u") ;;;
  emit (BindVertexArray 0) ;;;
  ret {| dragging := dragging st;
         lastX := lastX st; lastY := lastY st;
         vx := vx st; vy := vy st;
         lastTime := lastTime st;
         vao := vao'; vbo := vbo'; ebo := ebo';
         shader := shader st;
         gridCols := cols; gridRows := rows;
         indexCount := wrap_int (Z.of_nat (List.length idx));
         texId := texId st |}.

(** ** Event callbacks

    [now] is the reading of [high_resolution_clock] in seconds; each
    callback body works on the entry [g_states[pWin]]. *)

Definition set_dragging (b : bool) (st : WindowJellyState) : WindowJellyState :=
  {| dragging := b;
     lastX := lastX st; lastY := lastY st; vx := vx st; vy := vy st;
     lastTime := lastTime st;
     vao := vao st; vbo := vbo st; ebo := ebo st; shader := shader st;
     gridCols := gridCols st; gridRows := gridRows st;
     indexCount := indexCount st; texId := texId st |}.

Definition set_lastTime (t : F64.t) (st : WindowJellyState) : WindowJellyState :=
  {| dragging := dragging st;
     lastX := lastX st; lastY := lastY st; vx := vx st; vy := vy st;
     lastTime := t;
     vao := vao st; vbo := vbo st; ebo := ebo st; shader := shader st;
     gridCols := gridCols st; gridRows := gridRows st;
     indexCount := indexCount st; texId := texId st |}.

Definition set_lastPos (px py : F32.t) (st : WindowJellyState) : WindowJellyState :=
  {| dragging := dragging st;
     lastX := px; lastY := py; vx := vx st; vy := vy st;
     lastTime := lastTime st;
     vao := vao st; vbo := vbo st; ebo := ebo st; shader := shader st;
     gridCols := gridCols st; gridRows := gridRows st;
     indexCount := indexCount st; texId := texId st |}.

Definition set_vx (a : F32.t) (st : WindowJellyState) : WindowJellyState :=
  {| dragging := dragging st;
     lastX := lastX st; lastY := lastY st; vx := a; vy := vy st;
     lastTime := lastTime st;
     vao := vao st; vbo := vbo st; ebo := ebo st; shader := shader st;
     gridCols := gridCols st; gridRows := gridRows st;
     indexCount := indexCount st; texId := texId st |}.

Definition set_vy (a : F32.t) (st : WindowJellyState) : WindowJellyState :=
  {| dragging := dragging st;
     lastX := lastX st; lastY := lastY st; vx := vx st; vy := a;
     lastTime := lastTime st;
     vao := vao st; vbo := vbo st; ebo := ebo st; shader := shader st;
     gridCols := gridCols st; gridRows := gridRows st;
     indexCount := indexCount st; texId := texId st |}.

Definition set_shader (p : GLuint) (st : WindowJellyState) : WindowJellyState :=
  {| dragging := dragging st;
     lastX := lastX st; lastY := lastY st; vx := vx st; vy := vy st;
     lastTime := lastTime st;
     vao := vao st; vbo := vbo st; ebo := ebo st; shader := p;
     gridCols := gridCols st; gridRows := gridRows st;
     indexCount := indexCount st; texId := texId st |}.

(** The literal [1e-6] of type [double]. *)
Definition EPSILON_TIME : F64.t := F64.dec 1 1000000.

(** Body of [onMoveBegin] on [st = g_states[pWin]]. *)
Definition onMoveBegin_st (now : F64.t) (st : WindowJellyState) : GL WindowJellyState :=
  let st := set_dragging true st in
  let st := set_lastTime now st in
  if shader st =? 0
  then p <- compileShaderProgram vertexShaderSrc fragmentShaderSrc ;; ret (set_shader p st)
  else ret st.

(** Body of [onMove]; [dt] is computed and not used. *)
Definition onMove_st (now : F64.t) (st : WindowJellyState) : GL WindowJellyState :=
  let dt := F64.max EPSILON_TIME (F64.sub now (lastTime st)) in
  ret (set_lastTime now st).

(** Body of [onMoveEnd]. *)
Definition onMoveEnd_st (st : WindowJellyState) : GL WindowJellyState :=
  ret (set_dragging false st).

(** The placeholder window object read through [pWin]. *)
Record DummyWindow := mkWindow {
  w : F32.t; h : F32.t; xpos : F32.t; ypos : F32.t; tex : GLuint
}.

(** The velocity estimate of the render hook: the lines from [double now]
    to [st.lastTime = now]. *)
Definition update_velocity (newX newY : F32.t) (now : F64.t) (st : WindowJellyState)
  : WindowJellyState :=
  let dt := F64.max EPSILON_TIME (F64.sub now (lastTime st)) in
  let st := if F64.eqb (lastTime st) F64.zero then set_lastPos newX newY st else st in
  let st := set_vx (F64.to_F32 (F64.div (F64.of_F32 (F32.sub newX (lastX st))) dt)) st in
  let st := set_vy (F64.to_F32 (F64.div (F64.of_F32 (F32.sub newY (lastY st))) dt)) st in
  let st := set_lastPos newX newY st in
  set_lastTime now st.

(** Body of [onPreRenderWindow] for a non-null [pWindow]. *)
Definition onPreRenderWindow_st (pWindow : DummyWindow) (now : F64.t) (st : WindowJellyState)
  : GL WindowJellyState :=
  st <- (if vao st =? 0
         then generateGrid st (gridCols st) (gridRows st) (w pWindow) (h pWindow)
         else ret st) ;;
  let st := update_velocity (xpos pWindow) (ypos pWindow) now st in
  let centerX := F32.zero in
  let centerY := F32.zero in
  emit (UseProgram (shader st)) ;;;
  let t := F64.to_F32 now in
  emit (Uniform2f (shader st) "uWinSize" (w pWindow) (h pWindow)) ;;;
  emit (Uniform2f (shader st) "uCenter" centerX centerY) ;;;
  emit (Uniform2f (shader st) "uVelocity" (vx st) (vy st)) ;;;
  emit (Uniform1f (shader st) "uTime" t) ;;;
  emit (Uniform1f (shader st) "uAmplitude" (F32.of_Z 6)) ;;;
  emit (Uniform1f (shader st) "uFrequency" (F32.dec 2 100)) ;;;
  emit (Uniform1f (shader st) "uDamping" (F32.dec 2 100)) ;;;
  emit ActiveTexture0 ;;;
  emit (BindTexture2D (tex pWindow)) ;;;
  emit (Uniform1i (shader st) "uTex" 0) ;;;
  emit EnableBlend ;;;
  emit BlendFuncSrcAlphaOneMinusSrcAlpha ;;;
  emit (BindVertexArray (vao st)) ;;;
  emit (DrawElementsTriangles (indexCount st)) ;;;
  emit (BindVertexArray 0) ;;;
  emit (UseProgram 0) ;;;
  ret st.

(** The commands of the render hook after the velocity estimate. *)
Definition render_commands (pWindow : DummyWindow) (now : F64.t) (st : WindowJellyState)
  : list GLCall :=
  [ UseProgram (shader st);
    Uniform2f (shader st) "uWinSize" (w pWindow) (h pWindow);
    Uniform2f (shader st) "uCenter" F32.zero F32.zero;
    Uniform2f (shader st) "uVelocity" (vx st) (vy st);
    Uniform1f (shader st) "uTime" (F64.to_F32 now);
    Uniform1f (shader st) "uAmplitude" (F32.of_Z 6);
    Uniform1f (shader st) "uFrequency" (F32.dec 2 100);
    Uniform1f (shader st) "uDamping" (F32.dec 2 100);
    ActiveTexture0;
    BindTexture2D (tex pWindow);
    Uniform1i (shader st) "uTex" 0;
    EnableBlend;
    BlendFuncSrcAlphaOneMinusSrcAlpha;
    BindVertexArray (vao st);
    DrawElementsTriangles (indexCount st);
    BindVertexArray 0;
    UseProgram 0 ].

(** ** The registry [g_states] *)

Definition registry : Type := list (Z * WindowJellyState).

Fixpoint lookup (g : registry) (k : Z) : option WindowJellyState :=
  match g with
  | [] => None
  | (k', st) :: g' => if k' =? k then Some st else lookup g' k
  end.

Fixpoint store (g : registry) (k : Z) (st : WindowJellyState) : registry :=
  match g with
  | [] => [(k, st)]
  | (k', st') :: g' => if k' =? k then (k, st) :: g' else (k', st') :: store g' k st
  end.

(** [g_states[pWin]]: the entry, default-constructed when absent. *)
Definition get_or_create (g : registry) (k : Z) : WindowJellyState :=
  match lookup g k with Some st => st | None => default_state end.

Definition with_entry (pWin : Z) (body : WindowJellyState -> GL WindowJellyState)
  (g : registry) : GL registry :=
  st <- body (get_or_create g pWin) ;; ret (store g pWin st).

Definition onMoveBegin (pWin : Z) (now : F64.t) : registry -> GL registry :=
  with_entry pWin (onMoveBegin_st now).

Definition onMove (pWin : Z) (now : F64.t) : registry -> GL registry :=
  with_entry pWin (onMove_st now).

Definition onMoveEnd (pWin : Z) : registry -> GL registry :=
  with_entry pWin onMoveEnd_st.

(** [pWin] is the address of [pWindow]; a null pointer returns at once. *)
Definition onPreRenderWindow (pWin : Z) (pWindow : DummyWindow) (now : F64.t)
  (g : registry) : GL registry :=
  if pWin =? 0 then ret g
  else with_entry pWin (onPreRenderWindow_st pWindow now) g.

(** Host calls on one surface, and their effect on its state. *)
Inductive HostCall : Type :=
| BeginDrag (now : F64.t)
| UpdateDrag (now : F64.t)
| EndDrag
| RenderFrame (pWindow : DummyWindow) (now : F64.t).

Definition host_call (c : HostCall) : WindowJellyState -> GL WindowJellyState :=
  match c with
  | BeginDrag now => onMoveBegin_st now
  | UpdateDrag now => onMove_st now
  | EndDrag => onMoveEnd_st
  | RenderFrame pWindow now => onPreRenderWindow_st pWindow now
  end.

Fixpoint host_calls (cs : list HostCall) (st : WindowJellyState) : GL WindowJellyState :=
  match cs with
  | [] => ret st
  | c :: cs' => st' <- host_call c st ;; host_calls cs' st'
  end.

(** ** The vertex shader

    GLSL [sin] and [exp] are left to the implementation; [length] and
    [normalize] are as the GLSL specification defines them. *)

Definition vec2 : Type := F32.t * F32.t.

Definition length2 (p : vec2) : F32.t :=
  F32.sqrt (F32.add (F32.mul (fst p) (fst p)) (F32.mul (snd p) (snd p))).

Definition normalize2 (p : vec2) : vec2 :=
  (F32.div (fst p) (length2 p), F32.div (snd p) (length2 p)).

Section VertexShader.
Variables (glsl_sin glsl_exp : F32.t -> F32.t).
Variables (uWinSize uCenter uVelocity : vec2).
Variables (uTime uAmplitude uFrequency uDamping : F32.t).

Definition shader_dist (aPos : vec2) : F32.t :=
  let dx := F32.sub (fst aPos) (fst uCenter) in
  let dy := F32.sub (snd aPos) (snd uCenter) in
  length2 (dx, dy).

Definition shader_wave (aPos : vec2) : F32.t :=
  let dist := shader_dist aPos in
  F32.mul
    (F32.mul (glsl_sin (F32.sub (F32.mul uFrequency dist)
                                (F32.mul uTime (F32.dec 62831 10000))))
             uAmplitude)
    (glsl_exp (F32.mul (F32.opp dist) uDamping)).

Definition shader_disp (aPos : vec2) : F32.t :=
  let velMag := length2 uVelocity in
  F32.mul (shader_wave aPos)
          (F32.add F32.one (F32.mul velMag (F32.of_Z 5))).

Definition shader_dir (aPos : vec2) : vec2 :=
  let dx := F32.sub (fst aPos) (fst uCenter) in
  let dy := F32.sub (snd aPos) (snd uCenter) in
  normalize2 (F32.add dx (F32.dec 1 10000), F32.add dy (F32.dec 1 10000)).

(** The local [displaced] of [main]. *)
Definition displaced (aPos : vec2) : vec2 :=
  let disp := shader_disp aPos in
  let dir := shader_dir aPos in
  (F32.add (fst aPos) (F32.mul (fst dir) disp),
   F32.add (snd aPos) (F32.mul (snd dir) disp)).

(** [gl_Position.xy] and [vUV]. *)
Definition vertexShader_main (aPos aUV : vec2) : vec2 * vec2 :=
  let d := displaced aPos in
  ((F32.div (fst d) (F32.div (fst uWinSize) (F32.of_Z 2)),
    F32.div (snd d) (F32.div (snd uWinSize) (F32.of_Z 2))),
   aUV).
End VertexShader.

(** The context before any OpenGL call. *)
Definition fresh_context : GLContext := {| gl_fresh := 1; gl_log := [] |}.

(** The specification's precondition for grid generation: [cols >= 1],
    [rows >= 1], width and height finite and non-negative.  The source has
    no counterpart of this test. *)
Definition spec_valid_dimension (cols rows : Z) (winW winH : F32.t) : bool :=
  (1 <=? cols) && (1 <=? rows)
  && is_finite winW && F32.leb F32.zero winW
  && is_finite winH && F32.leb F32.zero winH.

(** [|x| <= 2^k], for a finite [x]. *)
Definition mag_le (k : Z) (a : spec_float) : Prop :=
  match a with
  | S754_zero _ => True
  | S754_finite _ m e => e <= k /\ Zpos m <= 2 ^ (k - e)
  | _ => False
  end.

(** The largest finite binary32 number. *)
Definition FLT_MAX : F32.t := S754_finite false 16777215 104.

(** Both components of [normalize(vec2(0.0001, 0.0001))], about 0.7071068. *)
Definition DIR_AT_CENTRE : F32.t := S754_finite false 11863284 (-24).

(** ** Rounding: auxiliary definitions *)

Definition inexact (R : shr_record) : bool := shr_r R || shr_s R.

Definition rne (m n : Z) : Z :=
  let q := m / 2 ^ n in
  match 2 * (m mod 2 ^ n) ?= 2 ^ n with
  | Lt => q
  | Eq => if Z.even q then q else q + 1
  | Gt => q + 1
  end.

Definition loc_inexact (l : location) : bool :=
  match l with loc_Exact => false | _ => true end.

Definition loc_bit (l : location) : Z := if loc_inexact l then 1 else 0.

(** Floats in [0, 1] (binary32). *)
Definition unit_range (x : spec_float) : Prop :=
  x = S754_zero false \/
  exists m e, x = S754_finite false m e /\ e <= 0 /\ Zpos m <= 2 ^ (- e) /\
    (e <= -24 \/ e <= fexp 24 128 (Zdigits2 (Zpos m) + e)).

(** The value of [(float) c], scaled by [2^23]. *)
Definition W (c : Z) : Z :=
  let d := Zdigits2 c in
  if d <=? 24 then c * 2 ^ 23 else rne c (d - 24) * 2 ^ (d - 1).

(** ** Plugin exit

    The deletions of [PLUGIN_EXIT] are recorded in the order of the loop
    ([std::unordered_map] fixes no iteration order; the entries are visited
    in the order of the list). *)

Inductive GLDelete : Type :=
| DeleteBuffers (name : GLuint)
| DeleteVertexArrays (name : GLuint)
| DeleteProgram (name : GLuint).

Definition deleted_name (d : GLDelete) : GLuint :=
  match d with
  | DeleteBuffers n | DeleteVertexArrays n | DeleteProgram n => n
  end.

(** The loop body of [PLUGIN_EXIT]: each handle is released when it is
    not zero. *)
Definition release (st : WindowJellyState) : list GLDelete :=
  (if vbo st =? 0 then [] else [DeleteBuffers (vbo st)]) ++
  (if ebo st =? 0 then [] else [DeleteBuffers (ebo st)]) ++
  (if vao st =? 0 then [] else [DeleteVertexArrays (vao st)]) ++
  (if shader st =? 0 then [] else [DeleteProgram (shader st)]).

(** [PLUGIN_EXIT]: the deletions issued, and [g_states] after [clear()]. *)
Definition PLUGIN_EXIT (g : registry) : list GLDelete * registry :=
  (flat_map (fun kv => release (snd kv)) g, []).

(** ** Reading a sequence of host calls *)

(** The drag flag named by the last [BeginDrag]/[EndDrag] of [cs], [b] when
    there is none. *)
Fixpoint last_drag (cs : list HostCall) (b : bool) : bool :=
  match cs with
  | [] => b
  | BeginDrag _ :: cs' => last_drag cs' true
  | EndDrag :: cs' => last_drag cs' false
  | _ :: cs' => last_drag cs' b
  end.

(** The clock reading of the last call of [cs] that carries one, [t] when
    there is none. *)
Fixpoint last_clock (cs : list HostCall) (t : F64.t) : F64.t :=
  match cs with
  | [] => t
  | BeginDrag now :: cs' | UpdateDrag now :: cs' | RenderFrame _ now :: cs' =>
      last_clock cs' now
  | EndDrag :: cs' => last_clock cs' t
  end.

(** Whether [cs] holds a render call. *)
Fixpoint has_render (cs : list HostCall) : bool :=
  match cs with
  | [] => false
  | RenderFrame _ _ :: _ => true
  | _ :: cs' => has_render cs'
  end.

(** The commands that build a shader program. *)
Definition builds_program (c : GLCall) : bool :=
  match c with
  | CreateShader _ _ | ShaderSource _ _ | CompileShader _
  | CreateProgram _ | AttachShader _ _ | LinkProgram _ | DeleteShader _ => true
  | _ => false
  end.

(** A callback [cb] of window [pWin] works on the entry of [pWin] alone:
    the new entry and the OpenGL context are those of [body] run on the old
    entry (the default state when there is none), every other entry is
    unchanged, and the outcome does not depend on the other entries. *)
Definition entry_callback (cb : registry -> GL registry)
  (body : WindowJellyState -> GL WindowJellyState) (pWin : Z) : Prop :=
  forall g gl,
    lookup (fst (cb g gl)) pWin = Some (fst (body (get_or_create g pWin) gl)) /\
    snd (cb g gl) = snd (body (get_or_create g pWin) gl) /\
    (lookup g pWin = None ->
     lookup (fst (cb g gl)) pWin = Some (fst (body default_state gl))) /\
    (forall other, other <> pWin -> lookup (fst (cb g gl)) other = lookup g other) /\
    (forall g', lookup g' pWin = lookup g pWin ->
       lookup (fst (cb g' gl)) pWin = lookup (fst (cb g gl)) pWin /\
       snd (cb g' gl) = snd (cb g gl)).

(** * Properties *)

(** ** Shifts, digits and rounding to nearest even *)

Lemma iter_pos_nat {A} (f : A -> A) (p : positive) (a : A) :
  iter_pos f p a = Nat.iter (Pos.to_nat p) f a.
Proof.
  revert a; induction p as [p IH | p IH | ]; intro a; simpl iter_pos.
  - rewrite !IH, Pos2Nat.inj_xI. 
    replace (S (2 * Pos.to_nat p)) with (Pos.to_nat p + (Pos.to_nat p + 1))%nat by lia.
    rewrite !Nat.iter_add. reflexivity.
  - rewrite !IH, Pos2Nat.inj_xO.
    replace (2 * Pos.to_nat p)%nat with (Pos.to_nat p + Pos.to_nat p)%nat by lia.
    rewrite Nat.iter_add. reflexivity.
  - reflexivity.
Qed.

Lemma shr_1_spec m r s : 0 <= m ->
  shr_1 (Build_shr_record m r s) = Build_shr_record (Z.div2 m) (Z.odd m) (r || s).
Proof.
  intros Hm. destruct m as [ | [p | p | ] | p ]; try reflexivity. lia.
Qed.

Lemma digits2_size p : digits2_pos p = Pos.size p.
Proof. induction p; simpl; congruence. Qed.

Lemma Zdigits2_log2 m : 0 < m -> Zdigits2 m = Z.log2 m + 1.
Proof.
  destruct m as [ | p | p ]; try lia. intros _. simpl Zdigits2. rewrite digits2_size.
  destruct p; simpl; lia.
Qed.

Lemma mod_pow2_succ m k : 0 <= k ->
  m mod 2 ^ (k + 1) = m mod 2 ^ k + 2 ^ k * ((m / 2 ^ k) mod 2).
Proof.
  intros Hk. rewrite Z.pow_add_r by lia. change (2 ^ 1) with 2.
  apply Z.rem_mul_r; lia.
Qed.

Lemma shrn_spec n : forall m r s, 0 <= m ->
  let R := Nat.iter n shr_1 (Build_shr_record m r s) in
  shr_m R = m / 2 ^ Z.of_nat n /\
  (inexact R = true <-> (r || s = true \/ m mod 2 ^ Z.of_nat n <> 0)) /\
  ((0 < n)%nat ->
     shr_r R = Z.odd (m / 2 ^ (Z.of_nat n - 1)) /\
     (shr_s R = true <-> (r || s = true \/ m mod 2 ^ (Z.of_nat n - 1) <> 0))).
Proof.
  induction n as [ | n IH]; intros m r s Hm R.
  - subst R; simpl. rewrite Z.div_1_r, Z.mod_1_r. unfold inexact; simpl.
    split; [reflexivity | split; [ | lia]]. tauto.
  - specialize (IH m r s Hm). cbv zeta in IH.
    subst R.
    replace (Z.of_nat (S n) - 1) with (Z.of_nat n) by lia.
    replace (Z.of_nat (S n)) with (Z.of_nat n + 1) by lia.
    rewrite Nat.iter_succ.
    destruct (Nat.iter n shr_1 (Build_shr_record m r s)) as [mn rn sn].
    unfold inexact in *. cbn [shr_m shr_r shr_s] in IH. destruct IH as (IHm & IHi & _).
    assert (Hmn : 0 <= mn) by (subst mn; apply Z.div_pos; [lia | apply Z.pow_pos_nonneg; lia]).
    rewrite shr_1_spec by exact Hmn. cbn [shr_m shr_r shr_s].
    assert (Hodd : Z.odd mn = true <-> (m / 2 ^ Z.of_nat n) mod 2 <> 0).
    { subst mn. rewrite Zmod_odd. destruct (Z.odd _); split; intros; try lia; congruence. }
    assert (Hp : 0 < 2 ^ Z.of_nat n) by (apply Z.pow_pos_nonneg; lia).
    split; [ | split; [ | intros _; split]].
    + rewrite Z.div2_div, IHm, Z.pow_add_r, Z.div_div by lia. reflexivity.
    + rewrite mod_pow2_succ by lia.
      assert (0 <= m mod 2 ^ Z.of_nat n < 2 ^ Z.of_nat n) by (apply Z.mod_pos_bound; lia).
      assert (0 <= (m / 2 ^ Z.of_nat n) mod 2 < 2) by (apply Z.mod_pos_bound; lia).
      rewrite orb_true_iff, Hodd, IHi. split.
      * intros [H1 | [H1 | H1]]; [right | left; exact H1 | right]; nia.
      * intros [H1 | H1]; [right; left; exact H1 | ].
        destruct (Z.eq_dec ((m / 2 ^ Z.of_nat n) mod 2) 0) as [E | E]; [ | left; exact E].
        right; right. rewrite E in H1. lia.
    + subst mn; reflexivity.
    + exact IHi.
Qed.

Lemma shrn_rne n m : 0 <= m ->
  let R := Nat.iter n shr_1 (Build_shr_record m false false) in
  round_nearest_even (shr_m R) (loc_of_shr_record R) = rne m (Z.of_nat n).
Proof.
  intros Hm R. destruct (shrn_spec n m false false Hm) as (Hq & Hi & Hrs).
  fold R in Hq, Hi, Hrs. unfold rne.
  destruct n as [ | n].
  - subst R; simpl. rewrite Z.mod_1_r, Z.div_1_r. reflexivity.
  - destruct Hrs as (Hr & Hs); [lia | ].
    replace (Z.of_nat (S n) - 1) with (Z.of_nat n) in * by lia.
    replace (Z.of_nat (S n)) with (Z.of_nat n + 1) in * by lia.
    rewrite mod_pow2_succ by lia. rewrite Zmod_odd, <- Hr.
    assert (Hp : 0 < 2 ^ Z.of_nat n) by (apply Z.pow_pos_nonneg; lia).
    assert (Hb : 0 <= m mod 2 ^ Z.of_nat n < 2 ^ Z.of_nat n) by (apply Z.mod_pos_bound; lia).
    assert (Hpp : 2 ^ (Z.of_nat n + 1) = 2 * 2 ^ Z.of_nat n) by (rewrite Z.pow_add_r by lia; lia).
    rewrite <- Hq.
    assert (Hs' : shr_s R = true <-> m mod 2 ^ Z.of_nat n <> 0).
    { rewrite Hs. cbn [orb]. split; [intros [H | H]; [discriminate | exact H] | tauto]. }
    clear Hs Hi Hr Hq. revert Hs'. generalize (m mod 2 ^ Z.of_nat n) Hb. rewrite Hpp.
    generalize (2 ^ Z.of_nat n) Hp. intros P HP t Ht.
    destruct R as [q r s]; cbn [shr_m shr_r shr_s loc_of_shr_record round_nearest_even].
    intros Hs.
    assert (Ht0 : s = false -> t = 0).
    { intros ->. destruct (Z.eq_dec t 0) as [E|E]; [exact E | ].
      apply Hs in E; discriminate. }
    assert (Ht1 : s = true -> t <> 0) by (intros ->; apply Hs; reflexivity).
    destruct r, s; cbn [loc_of_shr_record round_nearest_even].
    + specialize (Ht1 eq_refl).
      replace (_ ?= _) with Gt; [reflexivity | symmetry; apply Z.compare_gt_iff; lia].
    + specialize (Ht0 eq_refl).
      replace (_ ?= _) with Eq; [reflexivity | symmetry; apply Z.compare_eq_iff; lia].
    + specialize (Ht1 eq_refl).
      replace (_ ?= _) with Lt; [reflexivity | symmetry; apply Z.compare_lt_iff; lia].
    + specialize (Ht0 eq_refl).
      replace (_ ?= _) with Lt; [reflexivity | symmetry; apply Z.compare_lt_iff; lia].
Qed.

Lemma pow2_pos k : 0 <= k -> 0 < 2 ^ k.
Proof. intros; apply Z.pow_pos_nonneg; lia. Qed.

Lemma dig_bounds m : 0 < m -> 0 < Zdigits2 m /\ 2 ^ (Zdigits2 m - 1) <= m < 2 ^ Zdigits2 m.
Proof.
  intros Hm. rewrite Zdigits2_log2 by exact Hm.
  pose proof (Z.log2_nonneg m). pose proof (Z.log2_spec m Hm) as Hs.
  replace (Z.log2 m + 1 - 1) with (Z.log2 m) by lia.
  replace (Z.log2 m + 1) with (Z.succ (Z.log2 m)) by lia. lia.
Qed.

Lemma dig_nonneg m : 0 <= m -> 0 <= Zdigits2 m.
Proof. destruct m; simpl; lia. Qed.

Lemma dig_lt_pow m j : 0 < m -> m < 2 ^ j -> Zdigits2 m <= j.
Proof.
  intros Hm Hj. rewrite Zdigits2_log2 by exact Hm.
  destruct (Z.le_gt_cases 0 j) as [Hj0 | Hj0].
  - apply Z.log2_lt_pow2 in Hj; lia.
  - rewrite Z.pow_neg_r in Hj by lia. lia.
Qed.

Lemma dig_le_pow m j : 0 < m -> m <= 2 ^ j -> Zdigits2 m <= j + 1.
Proof.
  intros Hm Hj. apply dig_lt_pow; [exact Hm | ].
  destruct (Z.le_gt_cases 0 j) as [Hj0 | Hj0].
  - rewrite Z.pow_add_r by lia. pose proof (pow2_pos j Hj0). lia.
  - rewrite Z.pow_neg_r in Hj by lia. lia.
Qed.

Lemma dig_ge_pow m j : 0 <= j -> 2 ^ j <= m -> j + 1 <= Zdigits2 m.
Proof.
  intros Hj Hm. pose proof (pow2_pos j Hj).
  rewrite Zdigits2_log2 by lia. apply Z.log2_le_pow2 in Hm; lia.
Qed.

Lemma dig_mono a b : 0 <= a <= b -> Zdigits2 a <= Zdigits2 b.
Proof.
  intros [Ha Hab]. destruct (Z.eq_dec a 0) as [-> | Ha0].
  - apply dig_nonneg; lia.
  - rewrite !Zdigits2_log2 by lia. pose proof (Z.log2_le_mono a b Hab). lia.
Qed.

Lemma dig_div m n : 0 < m -> 0 <= n -> 0 < m / 2 ^ n -> Zdigits2 (m / 2 ^ n) = Zdigits2 m - n.
Proof.
  intros Hm Hn Hq. rewrite !Zdigits2_log2 by lia.
  rewrite <- Z.shiftr_div_pow2 by lia. rewrite Z.log2_shiftr by lia.
  assert (n <= Z.log2 m); [ | lia].
  apply Z.log2_le_pow2; [lia | ].
  pose proof (pow2_pos n Hn).
  destruct (Z.le_gt_cases (2 ^ n) m) as [H1 | H1]; [exact H1 | ].
  rewrite Z.div_small in Hq by lia. lia.
Qed.

Lemma div_pow2_le a j n : 0 <= n <= j -> a <= 2 ^ j -> a / 2 ^ n <= 2 ^ (j - n).
Proof.
  intros Hn Ha. pose proof (pow2_pos n ltac:(lia)).
  replace (2 ^ (j - n)) with (2 ^ j / 2 ^ n).
  - apply Z.div_le_mono; lia.
  - replace j with ((j - n) + n) at 1 by lia. rewrite Z.pow_add_r by lia.
    apply Z.div_mul; lia.
Qed.

Lemma rne_cases m l :
  round_nearest_even m l = m \/ (round_nearest_even m l = m + 1 /\ l <> loc_Exact).
Proof.
  destruct l as [ | [ | | ]]; simpl; auto.
  - destruct (Z.even m); [left; reflexivity | right; split; [reflexivity | discriminate]].
  - right; split; [reflexivity | discriminate].
Qed.

Lemma loc_exact_inexact R : loc_of_shr_record R <> loc_Exact -> inexact R = true.
Proof. destruct R as [m [ | ] [ | ]]; simpl; intros H; try reflexivity. congruence. Qed.

Lemma shr_nat R e n :
  shr R e n = (Nat.iter (Z.to_nat n) shr_1 R, e + Z.max 0 n).
Proof.
  destruct n as [ | p | p]; simpl shr.
  - f_equal. lia.
  - rewrite iter_pos_nat. f_equal. 
  - f_equal. lia.
Qed.

Lemma record_of_loc m l :
  exists r s, shr_record_of_loc m l = Build_shr_record m r s /\ r || s = loc_inexact l.
Proof. destruct l as [ | [ | | ]]; simpl; eauto. Qed.

Section Rounding.
Variables prec emax : Z.
Hypothesis Hprec : 0 < prec.

Local Abbreviation fexp := (fexp prec emax).
Local Abbreviation emin := (emin prec emax).

Lemma fexp_mono a b : a <= b -> fexp a <= fexp b.
Proof. unfold SpecFloat.fexp; lia. Qed.

Lemma shr_fexp_spec m e l : 0 <= m ->
  let N := Z.max 0 (fexp (Zdigits2 m + e) - e) in
  exists R, shr_fexp prec emax m e l = (R, e + N) /\
    shr_m R = m / 2 ^ N /\
    (inexact R = true -> loc_inexact l = true \/ m mod 2 ^ N <> 0) /\
    (l = loc_Exact -> round_nearest_even (shr_m R) (loc_of_shr_record R) = rne m N).
Proof.
  intros Hm N. unfold shr_fexp. rewrite shr_nat. fold N.
  destruct (record_of_loc m l) as (r & s & -> & Hrs).
  destruct (shrn_spec (Z.to_nat (fexp (Zdigits2 m + e) - e)) m r s Hm) as (Hq & Hi & _).
  replace (Z.of_nat (Z.to_nat (fexp (Zdigits2 m + e) - e))) with N in * by (unfold N; lia).
  eexists; split; [reflexivity | ]. split; [exact Hq | split].
  - intros H. apply Hi in H. rewrite Hrs in H. exact H.
  - intros ->. simpl in Hrs. destruct r, s; try discriminate.
    rewrite shrn_rne by exact Hm. f_equal. unfold N; lia.
Qed.

(** Rounding a value that is at most [2^k] yields at most [2^k]. *)
Lemma binary_round_aux_upper s mx ex lx k :
  0 <= mx -> ex <= k -> emin <= k -> k <= emax - prec ->
  mx + loc_bit lx <= 2 ^ (k - ex) ->
  binary_round_aux prec emax s mx ex lx = S754_zero s \/
  exists m e, binary_round_aux prec emax s mx ex lx = S754_finite s m e /\
    e <= k /\ Zpos m <= 2 ^ (k - e) /\
    ((e = ex /\ mx <= Zpos m) \/ e <= fexp (Zdigits2 (Zpos m) + e)).
Proof.
  intros Hmx Hex Hemin Hk Hb. unfold binary_round_aux.
  destruct (shr_fexp_spec mx ex lx Hmx) as (R1 & E1 & Hq1 & Hi1 & _).
  rewrite E1. clear E1.
  set (N1 := Z.max 0 (fexp (Zdigits2 mx + ex) - ex)) in *.
  set (e1 := ex + N1).
  set (m1 := round_nearest_even (shr_m R1) (loc_of_shr_record R1)).
  assert (HN1 : 0 <= N1) by (unfold N1; lia).
  assert (HP1 : 0 < 2 ^ N1) by (apply pow2_pos; lia).
  assert (Hdmx : Zdigits2 mx <= k - ex + 1).
  { destruct (Z.eq_dec mx 0) as [-> | H0]; [simpl; lia | ].
    apply dig_le_pow; [lia | ]. unfold loc_bit in Hb. destruct (loc_inexact lx); lia. }
  assert (He1 : e1 <= k) by (unfold e1, N1, SpecFloat.fexp; lia).
  assert (Hq1' : 0 <= shr_m R1) by (rewrite Hq1; apply Z.div_pos; lia).
  assert (HB1 : 0 < 2 ^ (k - e1)) by (apply pow2_pos; lia).
  assert (Hsplit : 2 ^ (k - ex) = 2 ^ (k - e1) * 2 ^ N1).
  { rewrite <- Z.pow_add_r by lia. f_equal. unfold e1; lia. }
  assert (Hm1 : shr_m R1 <= m1 <= shr_m R1 + 1 /\ m1 <= 2 ^ (k - e1)).
  { pose proof (Z.div_mod mx (2 ^ N1) ltac:(lia)) as Hdm.
    pose proof (Z.mod_pos_bound mx (2 ^ N1) HP1) as Hrem.
    rewrite <- Hq1 in Hdm. rewrite Hsplit in Hb.
    destruct (rne_cases (shr_m R1) (loc_of_shr_record R1)) as [Hr | [Hr Hl]]; fold m1 in Hr.
    - split; [lia | ]. rewrite Hr. unfold loc_bit in Hb. destruct (loc_inexact lx); nia.
    - split; [lia | ]. rewrite Hr. apply loc_exact_inexact in Hl. apply Hi1 in Hl.
      unfold loc_bit in Hb. destruct Hl as [Hl | Hl]; [rewrite Hl in Hb | destruct (loc_inexact lx)]; nia. }
  assert (Hm1' : 0 <= m1) by lia.
  destruct (shr_fexp_spec m1 e1 loc_Exact Hm1') as (R2 & E2 & Hq2 & _).
  rewrite E2. clear E2.
  set (N2 := Z.max 0 (fexp (Zdigits2 m1 + e1) - e1)) in *.
  set (e2 := e1 + N2).
  assert (HN2 : 0 <= N2) by (unfold N2; lia).
  assert (HP2 : 0 < 2 ^ N2) by (apply pow2_pos; lia).
  assert (Hdm1 : Zdigits2 m1 <= k - e1 + 1).
  { destruct (Z.eq_dec m1 0) as [-> | H0]; [simpl; lia | ]. apply dig_le_pow; lia. }
  assert (He2 : e2 <= k) by (unfold e2, N2, SpecFloat.fexp; lia).
  rewrite Hq2.
  assert (Hm2 : 0 <= m1 / 2 ^ N2 <= 2 ^ (k - e2)).
  { split; [apply Z.div_pos; lia | ].
    replace (k - e2) with (k - e1 - N2) by (unfold e2; lia).
    apply div_pow2_le; lia. }
  destruct (m1 / 2 ^ N2) as [ | m2 | m2] eqn:Em2; [left; reflexivity | right | lia].
  replace (e2 <=? emax - prec) with true by (symmetry; apply Z.leb_le; lia).
  exists m2, e2. split; [reflexivity | ]. split; [exact He2 | ]. split; [lia | ].
  destruct (Z.eq_dec N2 0) as [HN20 | HN20].
  - (* no second shift *)
    assert (Em : Zpos m2 = m1) by (rewrite <- Em2, HN20, Z.pow_0_r, Z.div_1_r; reflexivity).
    assert (Ee : e2 = e1) by (unfold e2; lia).
    rewrite Em, Ee.
    destruct (Z.eq_dec N1 0) as [HN10 | HN10].
    + left. split; [unfold e1; lia | ].
      rewrite HN10, Z.pow_0_r, Z.div_1_r in Hq1. lia.
    + right.
      assert (Hfe : e1 = fexp (Zdigits2 mx + ex)) by (unfold e1, N1 in *; lia).
      destruct (Z.eq_dec (shr_m R1) 0) as [Hz | Hnz].
      * (* all digits shifted out *)
        assert (mx < 2 ^ N1).
        { rewrite Hq1 in Hz. apply Z.div_small_iff in Hz; lia. }
        assert (Zdigits2 mx <= N1).
        { destruct (Z.eq_dec mx 0) as [-> | H0]; [simpl; lia | apply dig_lt_pow; lia]. }
        assert (Hone : m1 = 1) by lia. rewrite Hone. simpl Zdigits2.
        unfold e1, N1, SpecFloat.fexp in *. lia.
      * assert (Hd : Zdigits2 (shr_m R1) = Zdigits2 mx - N1).
        { rewrite Hq1. apply dig_div; try lia.
          destruct (Z.eq_dec mx 0) as [E0 | E0]; [ | lia].
          rewrite E0, Z.div_0_l in Hq1 by lia. lia. }
        pose proof (dig_mono (shr_m R1) m1 ltac:(lia)) as Hmono.
        rewrite Hfe at 1. apply fexp_mono. unfold e1. lia.
  - (* second shift *)
    right.
    assert (Hfe : e2 = fexp (Zdigits2 m1 + e1)) by (unfold e2, N2 in *; lia).
    assert (Hd : Zdigits2 (Zpos m2) = Zdigits2 m1 - N2).
    { rewrite <- Em2. apply dig_div; try lia.
      destruct (Z.eq_dec m1 0) as [E0 | E0]; [ | lia].
      rewrite E0, Z.div_0_l in Em2 by lia. discriminate. }
    rewrite Hd. rewrite Hfe at 1. apply fexp_mono. unfold e2. lia.
Qed.
End Rounding.

Lemma pos_iter_xO m d : Zpos (Pos.iter xO m d) = Zpos m * 2 ^ Zpos d.
Proof.
  induction d as [ | d IH] using Pos.peano_ind.
  - simpl. lia.
  - rewrite Pos.iter_succ, Pos2Z.inj_xO, IH, Pos2Z.inj_succ, Z.pow_succ_r by lia. lia.
Qed.

Lemma shl_align_spec mx ex ex' :
  snd (shl_align mx ex ex') = Z.min ex ex' /\
  Zpos (fst (shl_align mx ex ex')) = Zpos mx * 2 ^ (ex - Z.min ex ex').
Proof.
  unfold shl_align. destruct (ex' - ex) as [ | d | d] eqn:E; cbn [fst snd].
  - replace (Z.min ex ex') with ex by lia. rewrite Z.sub_diag, Z.pow_0_r. lia.
  - replace (Z.min ex ex') with ex by lia. rewrite Z.sub_diag, Z.pow_0_r. lia.
  - replace (Z.min ex ex') with ex' by lia. rewrite pos_iter_xO.
    split; [reflexivity | ]. do 2 f_equal. lia.
Qed.

Lemma dig_mul_pow2 m n : 0 < m -> 0 <= n -> Zdigits2 (m * 2 ^ n) = Zdigits2 m + n.
Proof.
  intros Hm Hn. pose proof (pow2_pos n Hn).
  rewrite !Zdigits2_log2 by nia. rewrite Z.log2_mul_pow2 by lia. lia.
Qed.

Section Rounding2.
Variables prec emax : Z.
Hypothesis Hprec : 0 < prec.

Local Abbreviation fexp := (fexp prec emax).
Local Abbreviation emin := (emin prec emax).

Lemma binary_round_upper s mx ex k :
  ex <= k -> emin <= k -> k <= emax - prec ->
  Zpos mx <= 2 ^ (k - ex) ->
  binary_round prec emax s mx ex = S754_zero s \/
  exists m e, binary_round prec emax s mx ex = S754_finite s m e /\
    e <= k /\ Zpos m <= 2 ^ (k - e) /\ e <= fexp (Zdigits2 (Zpos m) + e).
Proof.
  intros Hex Hemin Hk Hb. unfold binary_round.
  pose proof (shl_align_spec mx ex (fexp (Zpos (digits2_pos mx) + ex))) as [He Hm].
  destruct (shl_align mx ex (fexp (Zpos (digits2_pos mx) + ex))) as [mz ez].
  cbn [fst snd] in He, Hm. subst ez.
  set (ez := Z.min ex (fexp (Zpos (digits2_pos mx) + ex))) in *.
  assert (Hd : Zdigits2 (Zpos mz) + ez = Zdigits2 (Zpos mx) + ex).
  { rewrite Hm, dig_mul_pow2 by (unfold ez; lia). lia. }
  destruct (binary_round_aux_upper prec emax Hprec s (Zpos mz) ez loc_Exact k)
    as [Hz | (m & e & Hr & He & Hmb & Hshape)]; try lia.
  - unfold loc_bit; cbn [loc_inexact]. rewrite Hm, Z.add_0_r.
    replace (k - ez) with ((k - ex) + (ex - ez)) by lia.
    rewrite Z.pow_add_r by (unfold ez; lia).
    pose proof (pow2_pos (ex - ez) ltac:(unfold ez; lia)). nia.
  - left; exact Hz.
  - right. exists m, e. repeat split; try assumption.
    destruct Hshape as [[-> Hle] | Hs]; [ | exact Hs].
    pose proof (dig_mono (Zpos mz) (Zpos m) ltac:(lia)) as Hmono.
    apply Z.le_trans with (fexp (Zdigits2 (Zpos mz) + ez)).
    + rewrite Hd. unfold ez. simpl Zdigits2. lia.
    + apply fexp_mono. lia.
Qed.
End Rounding2.

Lemma pow2_rescale a b p q p' q' :
  0 <= p -> 0 <= q -> 0 <= p' -> 0 <= q' -> p - q = p' - q' ->
  a * 2 ^ p <= b * 2 ^ q -> a * 2 ^ p' <= b * 2 ^ q'.
Proof.
  intros Hp Hq Hp' Hq' E H.
  set (t := Z.min p q). set (t' := Z.min p' q').
  assert (Ht : 0 < 2 ^ t) by (apply pow2_pos; unfold t; lia).
  assert (Ht' : 0 < 2 ^ t') by (apply pow2_pos; unfold t'; lia).
  replace p with ((p - t) + t) in H by lia. replace q with ((q - t) + t) in H by lia.
  rewrite !Z.pow_add_r in H by (unfold t; lia).
  replace p' with ((p - t) + t') by (unfold t, t'; lia).
  replace q' with ((q - t) + t') by (unfold t, t'; lia).
  rewrite !Z.pow_add_r by (unfold t, t'; lia).
  nia.
Qed.

Lemma shift_match s m : 0 <= s ->
  match s with Z.pos _ => Z.shiftl m s | 0 => m | Z.neg _ => 0 end = m * 2 ^ s.
Proof.
  intros Hs. destruct s as [ | p | p]; [rewrite Z.pow_0_r; lia | | lia].
  apply Z.shiftl_mul_pow2; lia.
Qed.

Lemma new_location_bit n r : loc_bit (new_location n r) = if r =? 0 then 0 else 1.
Proof.
  unfold new_location, new_location_even, new_location_odd, loc_bit.
  destruct (Z.even n); destruct (r =? 0); reflexivity.
Qed.

Lemma unit_range_leb x :
  unit_range x -> SFleb (S754_zero false) x = true /\ SFleb x F32.one = true.
Proof.
  intros [-> | (m & e & -> & He & Hm & Hs)]; [split; reflexivity | ].
  split; [reflexivity | ].
  change F32.one with (S754_finite false 8388608 (-23)).
  unfold SFleb, SFcompare.
  destruct (Z.compare_spec e (-23)) as [E | E | E]; [ | reflexivity | exfalso].
  - subst e. change (2 ^ (- -23)) with 8388608 in Hm.
    rewrite Pos.compare_cont_spec. simpl Pos.switch_Eq.
    destruct (Pos.compare_spec m 8388608) as [E | E | E]; try reflexivity. lia.
  - destruct Hs as [Hs | Hs]; [lia | ].
    unfold fexp, emin in Hs.
    assert (Hd : 24 <= Zdigits2 (Zpos m)) by lia.
    assert (Hlt : Zpos m < 2 ^ 23).
    { apply Z.le_lt_trans with (2 ^ (- e)); [exact Hm | ].
      apply Z.pow_lt_mono_r; lia. }
    pose proof (dig_lt_pow (Zpos m) 23 ltac:(lia) Hlt). lia.
Qed.

Lemma div_unit_range mx ex my ey :
  -23 <= ex -> -23 <= ey ->
  Zpos mx * 2 ^ (ex + 23) <= Zpos my * 2 ^ (ey + 23) ->
  unit_range (SFdiv 24 128 (S754_finite false mx ex) (S754_finite false my ey)).
Proof.
  intros Hex Hey Hle. unfold SFdiv, SFdiv_core_binary.
  set (d1 := Zdigits2 (Zpos mx)). set (d2 := Zdigits2 (Zpos my)).
  assert (Hd : d1 + ex <= d2 + ey).
  { destruct (dig_bounds (Zpos mx) ltac:(lia)) as (H1 & H2 & _).
    destruct (dig_bounds (Zpos my) ltac:(lia)) as (H3 & _ & H4).
    fold d1 in H1, H2. fold d2 in H3, H4.
    assert (2 ^ (d1 - 1) * 2 ^ (ex + 23) < 2 ^ d2 * 2 ^ (ey + 23)).
    { pose proof (pow2_pos (ex + 23) ltac:(lia)). pose proof (pow2_pos (ey + 23) ltac:(lia)). nia. }
    rewrite <- !Z.pow_add_r in H by lia.
    apply Z.pow_lt_mono_r_iff in H; lia. }
  set (e' := Z.min (fexp 24 128 (d1 + ex - (d2 + ey))) (ex - ey)).
  assert (He' : e' <= -24) by (unfold e', fexp, emin; lia).
  set (s := ex - ey - e').
  assert (Hs : 0 <= s) by (unfold s, e'; lia).
  set (m' := match s with Z.pos _ => Z.shiftl (Z.pos mx) s | 0 => Z.pos mx | Z.neg _ => 0 end).
  assert (Hm' : m' = Zpos mx * 2 ^ s).
  { unfold m'. apply shift_match; exact Hs. }
  pose proof (Z_div_mod m' (Zpos my) ltac:(lia)) as Hdiv.
  destruct (Z.div_eucl m' (Z.pos my)) as [q r]. destruct Hdiv as [Hqr Hr].
  assert (Hscale : Zpos mx * 2 ^ s <= Zpos my * 2 ^ (- e')).
  { apply (pow2_rescale _ _ (ex + 23) (ey + 23)); unfold s; lia. }
  pose proof (pow2_pos (- e') ltac:(lia)) as HB.
  assert (Hq0 : 0 <= q) by (pose proof (pow2_pos s Hs); nia).
  destruct (binary_round_aux_upper 24 128 ltac:(lia) false q e' (new_location (Z.pos my) r) 0)
    as [Hz | (m & e & Hres & He & Hmb & Hshape)]; try (unfold emin; lia).
  - rewrite new_location_bit. replace (0 - e') with (- e') by lia.
    destruct (Z.eqb_spec r 0); nia.
  - simpl xorb. rewrite Hz. left; reflexivity.
  - simpl xorb. rewrite Hres. right. exists m, e. split; [reflexivity | ].
    split; [lia | ]. split; [exact Hmb | ].
    destruct Hshape as [[-> _] | Hc]; [left; lia | right; exact Hc].
Qed.

Lemma unit_range_one : unit_range F32.one.
Proof.
  right. exists 8388608%positive, (-23). split; [reflexivity | ].
  split; [lia | split; [simpl; lia | right; vm_compute; discriminate]].
Qed.

Lemma sub_unit_range x : unit_range x -> unit_range (SFsub 24 128 F32.one x).
Proof.
  intros [-> | (m & e & -> & He & Hm & _)]; [exact unit_range_one | ].
  change F32.one with (S754_finite false 8388608 (-23)).
  unfold SFsub. set (ez := Z.min (-23) e).
  destruct (shl_align_spec 8388608 (-23) ez) as [_ H1].
  destruct (shl_align_spec m e ez) as [_ H2].
  replace (Z.min (-23) ez) with ez in H1 by (unfold ez; lia).
  replace (Z.min e ez) with ez in H2 by (unfold ez; lia).
  unfold cond_Zopp. rewrite H1, H2.
  assert (Hone : 8388608 * 2 ^ (-23 - ez) = 2 ^ (- ez)).
  { change 8388608 with (2 ^ 23). rewrite <- Z.pow_add_r by (unfold ez; lia).
    f_equal; lia. }
  assert (Hle : Zpos m * 2 ^ (e - ez) <= 2 ^ (- ez)).
  { replace (- ez) with (- e + (e - ez)) by lia.
    rewrite Z.pow_add_r by (unfold ez; lia).
    pose proof (pow2_pos (e - ez) ltac:(unfold ez; lia)). nia. }
  rewrite Hone.
  destruct (2 ^ (- ez) - Z.pos m * 2 ^ (e - ez)) as [ | p | p] eqn:ED; [left; reflexivity | | lia].
  unfold binary_normalize.
  destruct (binary_round_upper 24 128 ltac:(lia) false p ez 0)
    as [Hz | (m' & e' & Hres & He' & Hmb & Hc)]; try (unfold emin, ez; lia).
  - replace (0 - ez) with (- ez) by lia. 
    pose proof (pow2_pos (e - ez) ltac:(unfold ez; lia)). nia.
  - left; exact Hz.
  - right. exists m', e'. split; [exact Hres | ]. split; [exact He' | ].
    split; [replace (- e') with (0 - e') by lia; exact Hmb | right; exact Hc].
Qed.

Section Exact.
Variables prec emax : Z.
Hypothesis Hprec : 0 < prec.

Local Abbreviation fexp := (fexp prec emax).
Local Abbreviation emin := (emin prec emax).

(** Rounding an exact value: the result is [rne] of the mantissa at the
    exponent [fexp] asks for. *)
Lemma binary_round_aux_exact s mx ex :
  0 < mx ->
  let N1 := Z.max 0 (fexp (Zdigits2 mx + ex) - ex) in
  match binary_round_aux prec emax s mx ex loc_Exact with
  | S754_zero _ => rne mx N1 = 0
  | S754_finite _ m e => ex + N1 <= e /\ Zpos m * 2 ^ (e - (ex + N1)) = rne mx N1
  | _ => True
  end.
Proof.
  intros Hmx. unfold binary_round_aux.
  destruct (shr_fexp_spec prec emax mx ex loc_Exact ltac:(lia)) as (R1 & E1 & Hq1 & _ & Hr1).
  rewrite E1. clear E1. specialize (Hr1 eq_refl). rewrite Hr1.
  set (N1 := Z.max 0 (fexp (Zdigits2 mx + ex) - ex)) in *.
  set (e1 := ex + N1). set (m1 := rne mx N1) in *.
  assert (HN1 : 0 <= N1) by (unfold N1; lia).
  assert (HP1 : 0 < 2 ^ N1) by (apply pow2_pos; lia).
  assert (Hq1' : 0 <= shr_m R1) by (rewrite Hq1; apply Z.div_pos; lia).
  assert (Hm1 : shr_m R1 <= m1 <= shr_m R1 + 1).
  { destruct (rne_cases (shr_m R1) (loc_of_shr_record R1)) as [Hr | [Hr _]];
      rewrite Hr1 in Hr; fold m1 in Hr; lia. }
  destruct (shr_fexp_spec prec emax m1 e1 loc_Exact ltac:(lia)) as (R2 & E2 & Hq2 & _).
  rewrite E2. clear E2. rewrite Hq2.
  set (N2 := Z.max 0 (fexp (Zdigits2 m1 + e1) - e1)) in *.
  assert (HN2 : 0 <= N2) by (unfold N2; lia).
  assert (HP2 : 0 < 2 ^ N2) by (apply pow2_pos; lia).
  (* digits of the truncated mantissa fit the exponent *)
  assert (Hfit : fexp (Zdigits2 (shr_m R1) + e1) <= e1).
  { destruct (Z.eq_dec N1 0) as [HN10 | HN10].
    - rewrite Hq1, HN10, Z.pow_0_r, Z.div_1_r.
      replace e1 with ex by (unfold e1; lia). unfold N1 in HN10. lia.
    - destruct (Z.eq_dec (shr_m R1) 0) as [Hz | Hnz].
      + rewrite Hz. simpl Zdigits2.
        assert (mx < 2 ^ N1) by (rewrite Hq1 in Hz; apply Z.div_small_iff in Hz; lia).
        pose proof (dig_lt_pow mx N1 Hmx H).
        unfold e1, N1, SpecFloat.fexp in *. lia.
      + assert (Hd : Zdigits2 (shr_m R1) = Zdigits2 mx - N1).
        { rewrite Hq1. apply dig_div; try lia. }
        rewrite Hd. unfold e1, N1 in *. 
        replace (Zdigits2 mx - Z.max 0 (fexp (Zdigits2 mx + ex) - ex) +
                 (ex + Z.max 0 (fexp (Zdigits2 mx + ex) - ex)))
          with (Zdigits2 mx + ex) by lia. lia. }
  (* a second shift only follows a carry, and is exact *)
  assert (Hexact : m1 / 2 ^ N2 * 2 ^ N2 = m1).
  { destruct (Z.eq_dec N2 0) as [HN20 | HN20].
    - rewrite HN20, Z.pow_0_r, Z.div_1_r. lia.
    - assert (Hgt : Zdigits2 (shr_m R1) < Zdigits2 m1).
      { destruct (Z.le_gt_cases (Zdigits2 m1) (Zdigits2 (shr_m R1))) as [Hle | Hgt]; [ | exact Hgt].
        pose proof (fexp_mono prec emax (Zdigits2 m1 + e1) (Zdigits2 (shr_m R1) + e1) ltac:(lia)).
        unfold N2 in HN20. lia. }
      assert (Hm1eq : m1 = shr_m R1 + 1).
      { destruct (Z.eq_dec m1 (shr_m R1)) as [E | E]; [rewrite E in Hgt; lia | lia]. }
      destruct (Z.eq_dec (shr_m R1) 0) as [Hz | Hnz].
      + (* m1 = 1 *)
        exfalso.
        assert (D1 : Zdigits2 m1 = 1) by (rewrite Hm1eq, Hz; reflexivity).
        assert (D0 : Zdigits2 (shr_m R1) = 0) by (rewrite Hz; reflexivity).
        rewrite D0 in Hfit. unfold N2 in HN20. rewrite D1 in HN20.
        unfold SpecFloat.fexp in *. lia.
      + destruct (dig_bounds (shr_m R1) ltac:(lia)) as (Hd0 & Hlo & Hhi).
        assert (Hpow : m1 = 2 ^ Zdigits2 (shr_m R1)).
        { destruct (Z.eq_dec m1 (2 ^ Zdigits2 (shr_m R1))) as [E | E]; [exact E | ].
          assert (m1 < 2 ^ Zdigits2 (shr_m R1)) by lia.
          pose proof (dig_lt_pow m1 _ ltac:(lia) H). lia. }
        assert (Hdm1 : Zdigits2 m1 = Zdigits2 (shr_m R1) + 1).
        { pose proof (dig_le_pow m1 (Zdigits2 (shr_m R1)) ltac:(lia) ltac:(lia)). lia. }
        assert (HN21 : N2 = 1).
        { unfold N2, SpecFloat.fexp in *. lia. }
        rewrite HN21, Hpow. change (2 ^ 1) with 2.
        replace (Zdigits2 (shr_m R1)) with ((Zdigits2 (shr_m R1) - 1) + 1) by lia.
        rewrite Z.pow_add_r by lia. change (2 ^ 1) with 2.
        rewrite Z.div_mul by lia. reflexivity. }
  cbv zeta. fold N1. fold e1. fold m1.
  destruct (m1 / 2 ^ N2) as [ | m2 | m2] eqn:Em2; [lia | | exact I].
  destruct (e1 + N2 <=? emax - prec); [ | exact I].
  split; [lia | ]. replace (e1 + N2 - e1) with N2 by lia. exact Hexact.
Qed.
End Exact.

Lemma rne_bounds m n : 0 <= n -> m / 2 ^ n <= rne m n <= m / 2 ^ n + 1.
Proof.
  intros Hn. unfold rne. destruct (_ ?= _); [destruct (Z.even _) | | ]; lia.
Qed.

Lemma rne_mono a b n : 0 <= n -> a <= b -> rne a n <= rne b n.
Proof.
  intros Hn Hab. pose proof (pow2_pos n Hn) as HP.
  pose proof (Z.div_le_mono a b (2 ^ n) HP Hab) as Hq.
  destruct (Z.eq_dec (a / 2 ^ n) (b / 2 ^ n)) as [E | E].
  - pose proof (Z.div_mod a (2 ^ n) ltac:(lia)) as Ha.
    pose proof (Z.div_mod b (2 ^ n) ltac:(lia)) as Hb.
    assert (Hr : a mod 2 ^ n <= b mod 2 ^ n) by (rewrite E in Ha; lia).
    unfold rne. rewrite E.
    destruct (Z.compare_spec (2 * (a mod 2 ^ n)) (2 ^ n));
      destruct (Z.compare_spec (2 * (b mod 2 ^ n)) (2 ^ n));
      destruct (Z.even (b / 2 ^ n)); lia.
  - pose proof (rne_bounds a n Hn). pose proof (rne_bounds b n Hn). lia.
Qed.

Lemma rne_le_pow m n j : 0 <= n <= j -> 0 <= m < 2 ^ j -> rne m n <= 2 ^ (j - n).
Proof.
  intros Hn Hm. pose proof (rne_bounds m n ltac:(lia)).
  assert (m / 2 ^ n < 2 ^ (j - n)); [ | lia].
  apply Z.div_lt_upper_bound; [apply pow2_pos; lia | ].
  rewrite <- Z.pow_add_r by lia. replace (n + (j - n)) with j by lia. lia.
Qed.

Lemma rne_0 m : rne m 0 = m.
Proof. unfold rne. rewrite Z.pow_0_r, Z.mod_1_r, Z.div_1_r. reflexivity. Qed.

Lemma W_lower c : 0 < c -> 2 ^ (Zdigits2 c + 22) <= W c.
Proof.
  intros Hc. destruct (dig_bounds c Hc) as (Hd & Hlo & Hhi). unfold W.
  destruct (Z.leb_spec (Zdigits2 c) 24) as [H | H].
  - replace (Zdigits2 c + 22) with ((Zdigits2 c - 1) + 23) by lia.
    rewrite Z.pow_add_r by lia. nia.
  - pose proof (rne_bounds c (Zdigits2 c - 24) ltac:(lia)) as [Hb _].
    assert (2 ^ 23 <= c / 2 ^ (Zdigits2 c - 24)).
    { apply Z.div_le_lower_bound; [apply pow2_pos; lia | ].
      rewrite <- Z.pow_add_r by lia.
      replace (Zdigits2 c - 24 + 23) with (Zdigits2 c - 1) by lia. exact Hlo. }
    replace (Zdigits2 c + 22) with (23 + (Zdigits2 c - 1)) by lia.
    rewrite Z.pow_add_r by lia. pose proof (pow2_pos (Zdigits2 c - 1) ltac:(lia)). nia.
Qed.

Lemma W_upper c : 0 < c -> W c <= 2 ^ (Zdigits2 c + 23).
Proof.
  intros Hc. destruct (dig_bounds c Hc) as (Hd & Hlo & Hhi). unfold W.
  destruct (Z.leb_spec (Zdigits2 c) 24) as [H | H].
  - rewrite Z.pow_add_r by lia. nia.
  - pose proof (rne_le_pow c (Zdigits2 c - 24) (Zdigits2 c) ltac:(lia) ltac:(lia)) as Hb.
    replace (Zdigits2 c - (Zdigits2 c - 24)) with 24 in Hb by lia.
    replace (Zdigits2 c + 23) with (24 + (Zdigits2 c - 1)) by lia.
    rewrite Z.pow_add_r by lia. pose proof (pow2_pos (Zdigits2 c - 1) ltac:(lia)). nia.
Qed.

Lemma W_mono a b : 0 < a <= b -> W a <= W b.
Proof.
  intros [Ha Hab]. pose proof (dig_mono a b ltac:(lia)) as Hd.
  destruct (Z.eq_dec (Zdigits2 a) (Zdigits2 b)) as [E | E].
  - unfold W. rewrite E. destruct (Z.leb_spec (Zdigits2 b) 24) as [H24 | H24]; [nia | ].
    pose proof (pow2_pos (Zdigits2 b - 1) ltac:(lia)).
    pose proof (rne_mono a b (Zdigits2 b - 24) ltac:(lia) Hab). nia.
  - apply Z.le_trans with (2 ^ (Zdigits2 a + 23)); [apply W_upper; lia | ].
    apply Z.le_trans with (2 ^ (Zdigits2 b + 22)); [ | apply W_lower; lia].
    destruct (dig_bounds a Ha) as (Hd0 & _).
    apply Z.pow_le_mono_r; lia.
Qed.

Lemma of_Z_spec c : 0 < c <= 2 ^ 31 ->
  exists m e, binary_normalize 24 128 c 0 false = S754_finite false m e /\
    -23 <= e /\ Zpos m * 2 ^ (e + 23) = W c.
Proof.
  intros [Hc Hc31]. destruct c as [ | p | p]; try lia.
  unfold binary_normalize, binary_round.
  destruct (dig_bounds (Zpos p) Hc) as (Hd0 & Hlo & Hhi).
  set (d := Zdigits2 (Zpos p)) in *.
  change (Z.pos (digits2_pos p)) with d.
  assert (Hfe : fexp 24 128 (d + 0) = d - 24) by (unfold fexp, emin; lia).
  rewrite Hfe.
  pose proof (shl_align_spec p 0 (d - 24)) as [He Hm].
  destruct (shl_align p 0 (d - 24)) as [mz ez]. cbn [fst snd] in He, Hm. subst ez.
  set (ez := Z.min 0 (d - 24)) in *.
  replace (0 - ez) with (- ez) in Hm by lia.
  assert (HPz : 0 < 2 ^ (- ez)) by (apply pow2_pos; unfold ez; lia).
  assert (Hdz : Zdigits2 (Zpos mz) = d - ez).
  { rewrite Hm, dig_mul_pow2 by (unfold ez; lia). fold d. lia. }
  pose proof (binary_round_aux_exact 24 128 ltac:(lia) false (Zpos mz) ez ltac:(lia)) as Hex.
  cbv zeta in Hex. rewrite Hdz in Hex.
  replace (d - ez + ez) with (d + 0) in Hex by lia. rewrite Hfe in Hex.
  set (N1 := Z.max 0 (d - 24 - ez)) in *.
  assert (HeN : ez + N1 = d - 24) by (unfold N1, ez; lia).
  rewrite HeN in Hex.
  assert (Hrne : rne (Zpos mz) N1 * 2 ^ (d - 1) = W (Zpos p) /\ 0 < rne (Zpos mz) N1).
  { unfold W. fold d. destruct (Z.leb_spec d 24) as [H | H].
    - replace N1 with 0 by (unfold N1, ez; lia). rewrite rne_0, Hm.
      replace ez with (d - 24) by (unfold ez; lia).
      split; [ | nia].
      rewrite <- Z.mul_assoc, <- Z.pow_add_r by lia. do 2 f_equal. lia.
    - replace N1 with (d - 24) by (unfold N1, ez; lia).
      assert (Emz : Zpos mz = Zpos p).
      { rewrite Hm. replace ez with 0 by (unfold ez; lia). simpl. lia. }
      rewrite Emz. split; [reflexivity | ].
      pose proof (rne_bounds (Zpos p) (d - 24) ltac:(lia)) as [Hb _].
      assert (2 ^ 23 <= Zpos p / 2 ^ (d - 24)); [ | lia].
      apply Z.div_le_lower_bound; [apply pow2_pos; lia | ].
      rewrite <- Z.pow_add_r by lia.
      replace (d - 24 + 23) with (d - 1) by lia. exact Hlo. }
  destruct Hrne as [HW Hpos].
  destruct (binary_round_aux_upper 24 128 ltac:(lia) false (Zpos mz) ez loc_Exact 31)
    as [Hz | (m & e & Hres & He & Hmb & Hshape)]; try (unfold emin, ez; lia).
  - unfold loc_bit; cbn [loc_inexact]. rewrite Z.add_0_r, Hm.
    replace (31 - ez) with (31 + - ez) by lia. rewrite Z.pow_add_r by (unfold ez; lia). nia.
  - rewrite Hz in Hex. lia.
  - rewrite Hres in Hex. destruct Hex as [Hee Hval].
    exists m, e. split; [exact Hres | ]. split; [lia | ].
    rewrite <- HW, <- Hval, <- Z.mul_assoc, <- Z.pow_add_r by lia.
    do 2 f_equal. lia.
Qed.

Lemma of_Z_div_unit_range c n :
  0 <= c <= n -> 0 < n <= 2 ^ 31 ->
  unit_range (SFdiv 24 128 (binary_normalize 24 128 c 0 false)
                           (binary_normalize 24 128 n 0 false)).
Proof.
  intros Hc Hn.
  destruct (of_Z_spec n Hn) as (mn & en & -> & Hen & Wn).
  destruct (Z.eq_dec c 0) as [-> | Hc0].
  - left; reflexivity.
  - destruct (of_Z_spec c ltac:(lia)) as (mc & ec & -> & Hec & Wc).
    apply div_unit_range; try assumption.
    rewrite Wc, Wn. apply W_mono; lia.
Qed.

(** ** Lists built by nested loops *)

Lemma length_int_range n : List.length (int_range n) = Z.to_nat n.
Proof. unfold int_range. rewrite length_map, length_seq. reflexivity. Qed.

Lemma nth_error_int_range n i :
  (i < Z.to_nat n)%nat -> nth_error (int_range n) i = Some (Z.of_nat i).
Proof.
  intros Hi. unfold int_range.
  rewrite nth_error_map, nth_error_seq.
  destruct (Nat.ltb_spec i (Z.to_nat n)); [reflexivity | lia].
Qed.

Lemma In_int_range n z : In z (int_range n) <-> 0 <= z < n.
Proof.
  unfold int_range. rewrite in_map_iff. split.
  - intros (i & <- & Hi). apply in_seq in Hi. lia.
  - intros Hz. exists (Z.to_nat z). split; [lia | apply in_seq; lia].
Qed.

Section Blocks.
Context {A B : Type} (f : A -> list B) (k : nat).

Lemma length_flat_map_const l :
  (forall a, In a l -> List.length (f a) = k) ->
  List.length (flat_map f l) = (List.length l * k)%nat.
Proof.
  induction l as [ | a l IH]; intros H; [reflexivity | ].
  cbn [flat_map List.length]. rewrite length_app.
  rewrite (H a (or_introl eq_refl)), IH by (intros; apply H; right; assumption).
  lia.
Qed.

(** The [i]-th block of a concatenation of blocks of equal length. *)
Lemma flat_map_block l i a :
  (forall a, In a l -> List.length (f a) = k) ->
  nth_error l i = Some a ->
  firstn k (skipn (i * k) (flat_map f l)) = f a.
Proof.
  revert i. induction l as [ | b l IH]; intros i H Hi; [destruct i; discriminate | ].
  destruct i as [ | i]; cbn [nth_error] in Hi.
  - injection Hi as ->. cbn [flat_map Nat.mul skipn].
    rewrite <- (H a (or_introl eq_refl)). rewrite firstn_app, firstn_all, Nat.sub_diag.
    cbn [firstn]. apply app_nil_r.
  - cbn [flat_map]. replace (S i * k)%nat with (List.length (f b) + i * k)%nat
      by (rewrite (H b (or_introl eq_refl)); lia).
    rewrite skipn_app, skipn_all2 by lia.
    replace (List.length (f b) + i * k - List.length (f b))%nat with (i * k)%nat by lia.
    cbn [app]. apply IH; [intros; apply H; right; assumption | exact Hi].
Qed.

Lemma nth_error_flat_map_const l i j a :
  (forall a, In a l -> List.length (f a) = k) ->
  nth_error l i = Some a -> (j < k)%nat ->
  nth_error (flat_map f l) (i * k + j) = nth_error (f a) j.
Proof.
  intros H Hi Hj. rewrite <- (flat_map_block l i a H Hi).
  rewrite nth_error_firstn. destruct (Nat.ltb_spec j k); [ | lia].
  rewrite nth_error_skipn. reflexivity.
Qed.
End Blocks.

Lemma firstn_skipn_firstn {A} (l : list A) a b n :
  (a + b <= n)%nat -> firstn a (skipn b (firstn n l)) = firstn a (skipn b l).
Proof.
  intros H. rewrite skipn_firstn_comm, firstn_firstn.
  f_equal. lia.
Qed.

(** ** The grid mesh *)

Lemma length_grid_verts cols rows winW winH :
  List.length (grid_verts cols rows winW winH)
  = (Z.to_nat (rows + 1) * Z.to_nat (cols + 1))%nat.
Proof.
  unfold grid_verts.
  rewrite (length_flat_map_const _ (Z.to_nat (cols + 1))), length_int_range; [reflexivity | ].
  intros r _. rewrite length_map. apply length_int_range.
Qed.

Lemma length_grid_cell cols r c : List.length (grid_cell cols r c) = 6%nat.
Proof. reflexivity. Qed.

Lemma length_grid_row cols r :
  List.length (flat_map (grid_cell cols r) (int_range cols)) = (Z.to_nat cols * 6)%nat.
Proof.
  rewrite (length_flat_map_const _ 6), length_int_range; [reflexivity | ].
  intros; apply length_grid_cell.
Qed.

Lemma length_grid_idx cols rows :
  List.length (grid_idx cols rows) = (Z.to_nat rows * (Z.to_nat cols * 6))%nat.
Proof.
  unfold grid_idx.
  rewrite (length_flat_map_const _ (Z.to_nat cols * 6)), length_int_range; [reflexivity | ].
  intros; apply length_grid_row.
Qed.

Lemma grid_verts_nth cols rows winW winH r c :
  0 <= r <= rows -> 0 <= c <= cols ->
  nth_error (grid_verts cols rows winW winH) (Z.to_nat (r * (cols + 1) + c))
  = Some (grid_vertex cols rows winW winH r c).
Proof.
  intros Hr Hc. unfold grid_verts.
  replace (Z.to_nat (r * (cols + 1) + c))
    with (Z.to_nat r * Z.to_nat (cols + 1) + Z.to_nat c)%nat by nia.
  rewrite (nth_error_flat_map_const _ (Z.to_nat (cols + 1)) _ _ _ r).
  - rewrite nth_error_map, nth_error_int_range by lia.
    cbn [option_map]. do 2 f_equal. lia.
  - intros a _. rewrite length_map. apply length_int_range.
  - rewrite nth_error_int_range by lia. f_equal. lia.
  - lia.
Qed.

(** Wrap-around is invisible once the value is stored as [GLuint]. *)
Lemma wrap_int_shift z : exists k, wrap_int z = z + k * 4294967296.
Proof.
  unfold wrap_int. exists (- ((z + 2147483648) / 4294967296)).
  pose proof (Z.div_mod (z + 2147483648) 4294967296 ltac:(lia)). lia.
Qed.

Lemma to_GLuint_wrap_add a b : to_GLuint (wrap_int a + b) = to_GLuint (a + b).
Proof.
  destruct (wrap_int_shift a) as [k ->]. unfold to_GLuint.
  replace (a + k * 4294967296 + b) with (a + b + k * 4294967296) by lia.
  apply Z_mod_plus_full.
Qed.

Lemma to_GLuint_wrap a : to_GLuint (wrap_int a) = to_GLuint a.
Proof.
  rewrite <- (Z.add_0_r (wrap_int a)), to_GLuint_wrap_add. f_equal. lia.
Qed.

Lemma wrap_int_small z : -2147483648 <= z <= INT_MAX -> wrap_int z = z.
Proof. unfold wrap_int, INT_MAX. intros H. rewrite Z.mod_small; lia. Qed.

Lemma grid_cell_exact cols r c :
  0 <= cols < INT_MAX ->
  grid_cell cols r c =
  let i0 := r * (cols + 1) + c in
  let i1 := i0 + 1 in
  let i2 := i0 + (cols + 1) in
  let i3 := i2 + 1 in
  map to_GLuint [i0; i2; i1; i1; i2; i3].
Proof.
  intros Hcols. unfold grid_cell. cbv zeta.
  rewrite (wrap_int_small (cols + 1)) by (unfold INT_MAX in *; lia).
  set (A := r * (cols + 1)).
  assert (E0 : to_GLuint (wrap_int (wrap_int A + c)) = to_GLuint (A + c))
    by (rewrite to_GLuint_wrap; apply to_GLuint_wrap_add).
  assert (E1 : to_GLuint (wrap_int (wrap_int (wrap_int A + c) + 1)) = to_GLuint (A + c + 1)).
  { rewrite to_GLuint_wrap, to_GLuint_wrap_add, <- Z.add_assoc, to_GLuint_wrap_add.
    f_equal; lia. }
  assert (E2 : to_GLuint (wrap_int (wrap_int (wrap_int A + c) + (cols + 1)))
               = to_GLuint (A + c + (cols + 1))).
  { rewrite to_GLuint_wrap, to_GLuint_wrap_add, <- Z.add_assoc, to_GLuint_wrap_add.
    f_equal; lia. }
  assert (E3 : to_GLuint (wrap_int (wrap_int (wrap_int (wrap_int A + c) + (cols + 1)) + 1))
               = to_GLuint (A + c + (cols + 1) + 1)).
  { rewrite to_GLuint_wrap, to_GLuint_wrap_add, <- Z.add_assoc, to_GLuint_wrap_add,
      <- Z.add_assoc, to_GLuint_wrap_add.
    f_equal; lia. }
  cbn [map]. rewrite E0, E1, E2, E3. reflexivity.
Qed.

Lemma grid_idx_block cols rows r c :
  0 <= r < rows -> 0 <= c < cols ->
  firstn 6 (skipn (Z.to_nat (6 * (r * cols + c))) (grid_idx cols rows))
  = grid_cell cols r c.
Proof.
  intros Hr Hc. unfold grid_idx.
  replace (Z.to_nat (6 * (r * cols + c)))
    with (Z.to_nat c * 6 + Z.to_nat r * (Z.to_nat cols * 6))%nat by nia.
  rewrite <- skipn_skipn.
  rewrite <- (firstn_skipn_firstn _ 6 (Z.to_nat c * 6) (Z.to_nat cols * 6)) by nia.
  rewrite (flat_map_block _ (Z.to_nat cols * 6) _ _ r).
  - rewrite (flat_map_block _ 6 _ _ c); [reflexivity | intros; apply length_grid_cell | ].
    rewrite nth_error_int_range by lia. f_equal; lia.
  - intros; apply length_grid_row.
  - rewrite nth_error_int_range by lia. f_equal; lia.
Qed.

Lemma grid_vertex_unit_range cols rows winW winH r c :
  1 <= cols < INT_MAX -> 1 <= rows < INT_MAX -> 0 <= r <= rows -> 0 <= c <= cols ->
  unit_range (u (grid_vertex cols rows winW winH r c)) /\
  unit_range (v (grid_vertex cols rows winW winH r c)).
Proof.
  unfold INT_MAX. intros Hcols Hrows Hr Hc. unfold grid_vertex; cbn [u v]. split.
  - apply of_Z_div_unit_range; [lia | change (2 ^ 31) with 2147483648; lia].
  - apply sub_unit_range.
    apply of_Z_div_unit_range; [lia | change (2 ^ 31) with 2147483648; lia].
Qed.

Lemma generateGrid_uploads st cols rows winW winH g :
  let r := generateGrid st cols rows winW winH g in
  In (ArrayBufferData (grid_verts cols rows winW winH)) (gl_log (snd r)) /\
  In (ElementArrayBufferData (grid_idx cols rows)) (gl_log (snd r)) /\
  indexCount (fst r) = wrap_int (Z.of_nat (List.length (grid_idx cols rows))) /\
  gridCols (fst r) = cols /\ gridRows (fst r) = rows.
Proof.
  unfold generateGrid, bind, gen_if_zero, gen, emit, ret.
  destruct (vao st =? 0), (vbo st =? 0), (ebo st =? 0);
    cbn [fst snd gl_log gl_fresh indexCount gridCols gridRows];
    rewrite !in_app_iff; cbn [In]; repeat split; tauto.
Qed.

(** C1.  For [cols, rows >= 1] (below [INT_MAX], so that the loop counters
    do not overflow) and any width and height, the vertex array is in
    row-major order: the vertex of row [r] in [[0, rows]] and column [c] in
    [[0, cols]] sits at position [r * (cols + 1) + c], its position is
    [((c/cols - 0.5) * width, (r/rows - 0.5) * height)] and its uv is
    [(c/cols, 1 - r/rows)], all in binary32 arithmetic.  For [cols = 2],
    [rows = 1], [width = 4], [height = 2] the vertex at row 0, column 0 is
    [(-2, -1)] with uv [(0, 1)] and the vertex at row 1, column 2 is [(2, 1)]
    with uv [(1, 0)]. *)
Theorem grid_vertices_row_major :
  (forall cols rows winW winH r c,
     1 <= cols < INT_MAX -> 1 <= rows < INT_MAX ->
     0 <= r <= rows -> 0 <= c <= cols ->
     let tx := F32.div (F32.of_Z c) (F32.of_Z cols) in
     let ty := F32.div (F32.of_Z r) (F32.of_Z rows) in
     nth_error (grid_verts cols rows winW winH) (Z.to_nat (r * (cols + 1) + c))
     = Some {| x := F32.mul (F32.sub tx F32.half) winW;
               y := F32.mul (F32.sub ty F32.half) winH;
               u := tx;
               v := F32.sub F32.one ty |}) /\
  nth_error (grid_verts 2 1 (F32.of_Z 4) (F32.of_Z 2)) 0
  = Some {| x := F32.of_Z (-2); y := F32.of_Z (-1); u := F32.of_Z 0; v := F32.of_Z 1 |} /\
  nth_error (grid_verts 2 1 (F32.of_Z 4) (F32.of_Z 2)) 5
  = Some {| x := F32.of_Z 2; y := F32.of_Z 1; u := F32.of_Z 1; v := F32.of_Z 0 |}.
Proof.
  split; [ | split; vm_compute; reflexivity].
  intros cols rows winW winH r c _ _ Hr Hc. cbv zeta.
  rewrite grid_verts_nth by assumption. reflexivity.
Qed.

Lemma grid_vertices_row_major_witness :
  nth_error (grid_verts 2 1 (F32.of_Z 4) (F32.of_Z 2)) (Z.to_nat (1 * (2 + 1) + 2))
  = Some {| x := F32.mul (F32.sub (F32.div (F32.of_Z 2) (F32.of_Z 2)) F32.half) (F32.of_Z 4);
            y := F32.mul (F32.sub (F32.div (F32.of_Z 1) (F32.of_Z 1)) F32.half) (F32.of_Z 2);
            u := F32.div (F32.of_Z 2) (F32.of_Z 2);
            v := F32.sub F32.one (F32.div (F32.of_Z 1) (F32.of_Z 1)) |}.
Proof.
  apply (proj1 grid_vertices_row_major 2 1 (F32.of_Z 4) (F32.of_Z 2) 1 2);
    unfold INT_MAX; lia.
Defined.

(** C2.  For [cols, rows >= 1] whose vertex count fits the 32 bits of a
    [GLuint], the index array is written cell by cell ([r] in [[0, rows)],
    inner loop [c] in [[0, cols)]): the six entries of cell [(r, c)] start at
    position [6 * (r * cols + c)] and are the triangle [(i0, i2, i1)]
    followed by [(i1, i2, i3)], where [i0 = r * (cols + 1) + c],
    [i1 = i0 + 1], [i2 = i0 + (cols + 1)], [i3 = i2 + 1]. *)
Theorem grid_indices_winding cols rows r c :
  1 <= cols < INT_MAX -> 1 <= rows < INT_MAX ->
  (cols + 1) * (rows + 1) <= 4294967296 ->
  0 <= r < rows -> 0 <= c < cols ->
  let i0 := r * (cols + 1) + c in
  let i1 := i0 + 1 in
  let i2 := i0 + (cols + 1) in
  let i3 := i2 + 1 in
  firstn 6 (skipn (Z.to_nat (6 * (r * cols + c))) (grid_idx cols rows))
  = [i0; i2; i1; i1; i2; i3].
Proof.
  intros Hcols Hrows Hfit Hr Hc. cbv zeta.
  rewrite grid_idx_block by assumption.
  rewrite grid_cell_exact by lia. cbv zeta. cbn [map]. unfold to_GLuint.
  assert (Hmax : r * (cols + 1) + c + (cols + 1) + 1 < (cols + 1) * (rows + 1)) by nia.
  rewrite !Z.mod_small by nia. reflexivity.
Qed.

Lemma grid_indices_winding_witness :
  firstn 6 (skipn (Z.to_nat (6 * (0 * 2 + 1))) (grid_idx 2 1)) = [1; 4; 2; 2; 4; 5].
Proof.
  apply (grid_indices_winding 2 1 0 1); unfold INT_MAX; lia.
Defined.

(** C3.  For [cols, rows >= 1] (below [INT_MAX]) and every width and
    height, the mesh has exactly [(cols + 1) * (rows + 1)] vertices and
    [cols * rows * 6] indices, every index is below the vertex count, and
    both uv components of every vertex are in [[0, 1]]. *)
Theorem grid_mesh_well_formed cols rows winW winH :
  1 <= cols < INT_MAX -> 1 <= rows < INT_MAX ->
  let verts := grid_verts cols rows winW winH in
  let idx := grid_idx cols rows in
  Z.of_nat (List.length verts) = (cols + 1) * (rows + 1) /\
  Z.of_nat (List.length idx) = cols * rows * 6 /\
  (forall i, In i idx -> 0 <= i < Z.of_nat (List.length verts)) /\
  (forall p, In p verts ->
     F32.leb F32.zero (u p) = true /\ F32.leb (u p) F32.one = true /\
     F32.leb F32.zero (v p) = true /\ F32.leb (v p) F32.one = true).
Proof.
  intros Hcols Hrows. cbv zeta.
  assert (Hlen : Z.of_nat (List.length (grid_verts cols rows winW winH))
                 = (cols + 1) * (rows + 1)) by (rewrite length_grid_verts; nia).
  split; [exact Hlen | ].
  split; [rewrite length_grid_idx; nia | ]. split.
  - intros i Hi. rewrite Hlen. unfold grid_idx in Hi.
    apply in_flat_map in Hi. destruct Hi as (r & Hr & Hi).
    apply in_flat_map in Hi. destruct Hi as (c & Hc & Hi).
    apply In_int_range in Hr, Hc.
    rewrite grid_cell_exact in Hi by lia. cbv zeta in Hi. unfold to_GLuint in Hi.
    assert (Hmax : r * (cols + 1) + c + (cols + 1) + 1 < (cols + 1) * (rows + 1)) by nia.
    assert (Hmod : forall t, 0 <= t < (cols + 1) * (rows + 1) ->
                             0 <= t mod 4294967296 < (cols + 1) * (rows + 1)).
    { intros t Ht. pose proof (Z.mod_pos_bound t 4294967296 ltac:(lia)).
      pose proof (Z.mod_le t 4294967296 ltac:(lia) ltac:(lia)). lia. }
    cbn [map In] in Hi.
    destruct Hi as [<- | [<- | [<- | [<- | [<- | [<- | []]]]]]]; apply Hmod; nia.
  - intros p Hp. unfold grid_verts in Hp.
    apply in_flat_map in Hp. destruct Hp as (r & Hr & Hp).
    apply in_map_iff in Hp. destruct Hp as (c & <- & Hc).
    apply In_int_range in Hr, Hc.
    destruct (grid_vertex_unit_range cols rows winW winH r c) as [Hu Hv]; try lia.
    apply unit_range_leb in Hu, Hv. unfold F32.leb, F32.zero. tauto.
Qed.

Lemma grid_mesh_well_formed_witness :
  let verts := grid_verts 2 1 (F32.of_Z 4) (F32.of_Z 2) in
  let idx := grid_idx 2 1 in
  Z.of_nat (List.length verts) = (2 + 1) * (1 + 1) /\
  Z.of_nat (List.length idx) = 2 * 1 * 6 /\
  (forall i, In i idx -> 0 <= i < Z.of_nat (List.length verts)) /\
  (forall p, In p verts ->
     F32.leb F32.zero (u p) = true /\ F32.leb (u p) F32.one = true /\
     F32.leb F32.zero (v p) = true /\ F32.leb (v p) F32.one = true).
Proof.
  apply (grid_mesh_well_formed 2 1 (F32.of_Z 4) (F32.of_Z 2)); unfold INT_MAX; lia.
Defined.

Lemma grid_idx_empty cols rows : cols < 1 \/ rows < 1 -> grid_idx cols rows = [].
Proof.
  intros H. unfold grid_idx, int_range.
  destruct H as [H | H].
  - replace (Z.to_nat cols) with 0%nat by lia. cbn [seq map flat_map].
    induction (map Z.of_nat (seq 0 (Z.to_nat rows))) as [ | a l IH]; [reflexivity | exact IH].
  - replace (Z.to_nat rows) with 0%nat by lia. reflexivity.
Qed.

(** C4, as the code has it.  [generateGrid] tests none of its arguments and
    has no failure outcome: for [cols] and [rows] below [INT_MAX], where its
    loops end, it uploads the vertex array and the index array and records
    the index count also when the specification's precondition is violated.
    With [cols < 1] or [rows < 1] the index array is empty and [indexCount]
    is 0, so nothing is drawn; a negative or non-finite width or height is
    not looked at, and the mesh has the usual number of vertices and
    indices. *)
Theorem generateGrid_does_not_validate st cols rows winW winH g :
  cols < INT_MAX -> rows < INT_MAX ->
  spec_valid_dimension cols rows winW winH = false ->
  let r := generateGrid st cols rows winW winH g in
  In (ArrayBufferData (grid_verts cols rows winW winH)) (gl_log (snd r)) /\
  In (ElementArrayBufferData (grid_idx cols rows)) (gl_log (snd r)) /\
  indexCount (fst r) = wrap_int (Z.of_nat (List.length (grid_idx cols rows))) /\
  (cols < 1 \/ rows < 1 -> grid_idx cols rows = [] /\ indexCount (fst r) = 0) /\
  (1 <= cols -> 1 <= rows ->
   Z.of_nat (List.length (grid_verts cols rows winW winH)) = (cols + 1) * (rows + 1) /\
   Z.of_nat (List.length (grid_idx cols rows)) = cols * rows * 6).
Proof.
  intros _ _ _ r.
  destruct (generateGrid_uploads st cols rows winW winH g) as (Hv & Hi & Hc & _).
  fold r in Hv, Hi, Hc.
  split; [exact Hv | ]. split; [exact Hi | ]. split; [exact Hc | ]. split.
  - intros H. rewrite Hc, (grid_idx_empty cols rows H). split; reflexivity.
  - intros Hcols Hrows. rewrite length_grid_verts, length_grid_idx. nia.
Qed.

Lemma generateGrid_does_not_validate_witness :
  let r := generateGrid default_state 1 1 (F32.of_Z (-4)) (F32.of_Z 2) fresh_context in
  In (ArrayBufferData (grid_verts 1 1 (F32.of_Z (-4)) (F32.of_Z 2))) (gl_log (snd r)) /\
  In (ElementArrayBufferData (grid_idx 1 1)) (gl_log (snd r)) /\
  indexCount (fst r) = wrap_int (Z.of_nat (List.length (grid_idx 1 1))) /\
  (1 < 1 \/ 1 < 1 -> grid_idx 1 1 = [] /\ indexCount (fst r) = 0) /\
  (1 <= 1 -> 1 <= 1 ->
   Z.of_nat (List.length (grid_verts 1 1 (F32.of_Z (-4)) (F32.of_Z 2))) = (1 + 1) * (1 + 1) /\
   Z.of_nat (List.length (grid_idx 1 1)) = 1 * 1 * 6).
Proof.
  apply (generateGrid_does_not_validate default_state 1 1 (F32.of_Z (-4)) (F32.of_Z 2)
           fresh_context).
  - reflexivity.
  - reflexivity.
  - reflexivity.
Defined.

(** C4 as stated fails: a negative width violates the precondition, and the
    call still uploads a mesh of four vertices and six indices. *)
Lemma generateGrid_negative_width_uploads :
  let r := generateGrid default_state 1 1 (F32.of_Z (-4)) (F32.of_Z 2) fresh_context in
  spec_valid_dimension 1 1 (F32.of_Z (-4)) (F32.of_Z 2) = false /\
  In (ArrayBufferData (grid_verts 1 1 (F32.of_Z (-4)) (F32.of_Z 2))) (gl_log (snd r)) /\
  List.length (grid_verts 1 1 (F32.of_Z (-4)) (F32.of_Z 2)) = 4%nat /\
  In (ElementArrayBufferData [0; 2; 1; 1; 2; 3]) (gl_log (snd r)) /\
  indexCount (fst r) = 6.
Proof.
  cbv zeta. split; [reflexivity | ]. split; [ | split; [reflexivity | split; [ | reflexivity]]].
  - vm_compute. tauto.
  - vm_compute. tauto.
Qed.

(** ** The velocity estimate *)

Lemma SFsub_diag prec emax a : is_finite a = true -> SFsub prec emax a a = S754_zero false.
Proof.
  destruct a as [[ | ] | | | s m e]; try discriminate; intros _; try reflexivity.
  unfold SFsub. rewrite Z.sub_diag. reflexivity.
Qed.

Lemma EPSILON_TIME_value : EPSILON_TIME = S754_finite false 4722366482869645 (-72).
Proof. vm_compute. reflexivity. Qed.

(** [dt] is the literal, a positive finite number or [+oo]. *)
Lemma dt_positive d :
  let dt := F64.max EPSILON_TIME d in
  dt = S754_infinity false \/ exists m e, dt = S754_finite false m e.
Proof.
  cbv zeta. unfold F64.max, F64.ltb, SFltb. rewrite EPSILON_TIME_value.
  destruct d as [[ | ] | [ | ] | | [ | ] m e]; cbn [SFcompare]; eauto.
  destruct (Z.compare _ _); eauto. destruct (Pos.compare_cont _ _ _); eauto.
Qed.

Lemma zero_over_dt d :
  F64.to_F32 (F64.div (F64.of_F32 (S754_zero false)) (F64.max EPSILON_TIME d)) = F32.zero.
Proof.
  destruct (dt_positive d) as [-> | (m & e & ->)]; reflexivity.
Qed.

Lemma update_velocity_fields newX newY now st :
  let st' := update_velocity newX newY now st in
  lastX st' = newX /\ lastY st' = newY /\ lastTime st' = now /\
  dragging st' = dragging st /\ vao st' = vao st /\ vbo st' = vbo st /\
  ebo st' = ebo st /\ shader st' = shader st /\ gridCols st' = gridCols st /\
  gridRows st' = gridRows st /\ indexCount st' = indexCount st /\ texId st' = texId st.
Proof.
  unfold update_velocity. cbv zeta.
  destruct (F64.eqb (lastTime st) F64.zero); destruct st; repeat split.
Qed.

Lemma update_velocity_first newX newY now st :
  F64.eqb (lastTime st) F64.zero = true ->
  is_finite newX = true -> is_finite newY = true ->
  vx (update_velocity newX newY now st) = F32.zero /\
  vy (update_velocity newX newY now st) = F32.zero.
Proof.
  intros H0 HX HY. unfold update_velocity. rewrite H0. cbv zeta.
  destruct st; cbn [set_lastPos set_vx set_vy set_lastTime vx vy lastX lastY lastTime].
  unfold F32.sub. rewrite !SFsub_diag by assumption.
  rewrite !zero_over_dt. split; reflexivity.
Qed.

Lemma update_velocity_next newX newY now st :
  F64.eqb (lastTime st) F64.zero = false ->
  let dt := F64.max EPSILON_TIME (F64.sub now (lastTime st)) in
  vx (update_velocity newX newY now st)
  = F64.to_F32 (F64.div (F64.of_F32 (F32.sub newX (lastX st))) dt) /\
  vy (update_velocity newX newY now st)
  = F64.to_F32 (F64.div (F64.of_F32 (F32.sub newY (lastY st))) dt).
Proof.
  intros H0. unfold update_velocity. rewrite H0. cbv zeta.
  destruct st; split; reflexivity.
Qed.

(** C5, as the code has it.  The estimate uses
    [dt = max(1e-6, now - lastTime)] and
    [velocity = (position - lastPosition) / dt] component-wise.  When
    [lastTime == 0] it first sets the last position to the current one, so
    the first call yields [(0, 0)] for every finite position.  A second call,
    one second later and with the position advanced by [(10, 0)], yields
    [(10, 0)] when the clock of the first call was not 0; when it was 0,
    [lastTime] is still 0 and the second call is treated as a first one: it
    yields [(0, 0)] again. *)
Theorem velocity_update :
  (forall st newX newY now,
     F64.eqb (lastTime st) F64.zero = false ->
     let dt := F64.max EPSILON_TIME (F64.sub now (lastTime st)) in
     let st' := update_velocity newX newY now st in
     vx st' = F64.to_F32 (F64.div (F64.of_F32 (F32.sub newX (lastX st))) dt) /\
     vy st' = F64.to_F32 (F64.div (F64.of_F32 (F32.sub newY (lastY st))) dt) /\
     lastX st' = newX /\ lastY st' = newY /\ lastTime st' = now) /\
  (forall st newX newY now,
     F64.eqb (lastTime st) F64.zero = true ->
     is_finite newX = true -> is_finite newY = true ->
     let st' := update_velocity newX newY now st in
     vx st' = F32.zero /\ vy st' = F32.zero /\
     lastX st' = newX /\ lastY st' = newY /\ lastTime st' = now) /\
  (forall st px py px' now1 now2,
     F64.eqb (lastTime st) F64.zero = true ->
     is_finite px = true -> is_finite py = true ->
     F64.eqb now1 F64.zero = false ->
     F64.sub now2 now1 = F64.of_Z 1 ->
     F32.sub px' px = F32.of_Z 10 ->
     let st1 := update_velocity px py now1 st in
     let st2 := update_velocity px' py now2 st1 in
     vx st1 = F32.zero /\ vy st1 = F32.zero /\
     vx st2 = F32.of_Z 10 /\ vy st2 = F32.zero) /\
  (forall st px py px' py' now1 now2,
     F64.eqb now1 F64.zero = true ->
     is_finite px' = true -> is_finite py' = true ->
     let st1 := update_velocity px py now1 st in
     let st2 := update_velocity px' py' now2 st1 in
     vx st2 = F32.zero /\ vy st2 = F32.zero).
Proof.
  split; [ | split; [ | split]].
  - intros st newX newY now H0 dt st'.
    destruct (update_velocity_next newX newY now st H0) as [Hx Hy].
    destruct (update_velocity_fields newX newY now st) as (H1 & H2 & H3 & _).
    repeat split; assumption.
  - intros st newX newY now H0 HX HY st'.
    destruct (update_velocity_first newX newY now st H0 HX HY) as [Hx Hy].
    destruct (update_velocity_fields newX newY now st) as (H1 & H2 & H3 & _).
    repeat split; assumption.
  - intros st px py px' now1 now2 H0 HX HY Hnow Hdt Hdx st1 st2.
    destruct (update_velocity_first px py now1 st H0 HX HY) as [Hx Hy].
    destruct (update_velocity_fields px py now1 st) as (H1 & H2 & H3 & _).
    fold st1 in Hx, Hy, H1, H2, H3.
    assert (H0' : F64.eqb (lastTime st1) F64.zero = false) by (rewrite H3; exact Hnow).
    destruct (update_velocity_next px' py now2 st1 H0') as [Hx2 Hy2].
    fold st2 in Hx2, Hy2. rewrite H1, H2, H3, Hdt, Hdx in *.
    split; [exact Hx | ]. split; [exact Hy | ]. split.
    + rewrite Hx2. vm_compute. reflexivity.
    + rewrite Hy2. unfold F32.sub. rewrite SFsub_diag by exact HY. reflexivity.
  - intros st px py px' py' now1 now2 Hnow HX HY st1 st2.
    destruct (update_velocity_fields px py now1 st) as (_ & _ & H3 & _).
    fold st1 in H3.
    apply update_velocity_first; [rewrite H3; exact Hnow | exact HX | exact HY].
Qed.

Lemma velocity_update_witness :
  let st1 := update_velocity (F32.of_Z 50) (F32.of_Z 20) (F64.of_Z 100) default_state in
  let st2 := update_velocity (F32.of_Z 60) (F32.of_Z 20) (F64.of_Z 101) st1 in
  vx st1 = F32.zero /\ vy st1 = F32.zero /\
  vx st2 = F32.of_Z 10 /\ vy st2 = F32.zero.
Proof.
  apply (proj1 (proj2 (proj2 velocity_update)) default_state
           (F32.of_Z 50) (F32.of_Z 20) (F32.of_Z 60) (F64.of_Z 100) (F64.of_Z 101));
    vm_compute; reflexivity.
Defined.

(** C5 as stated fails: after a first sample taken at clock 0, the call one
    second later with the position advanced by [(10, 0)] yields [(0, 0)],
    not [(10, 0)]. *)
Lemma second_sample_after_clock_zero :
  let st1 := update_velocity (F32.of_Z 50) (F32.of_Z 20) (F64.of_Z 0) default_state in
  let st2 := update_velocity (F32.of_Z 60) (F32.of_Z 20) (F64.of_Z 1) st1 in
  F64.eqb (lastTime default_state) F64.zero = true /\
  F64.sub (F64.of_Z 1) (F64.of_Z 0) = F64.of_Z 1 /\
  F32.sub (F32.of_Z 60) (F32.of_Z 50) = F32.of_Z 10 /\
  vx st1 = F32.zero /\ vy st1 = F32.zero /\
  vx st2 = F32.zero /\ vy st2 = F32.zero /\
  vx st2 <> F32.of_Z 10.
Proof. vm_compute. repeat split. discriminate. Qed.

(** ** Event callbacks and the render hook *)

(** C6, evaluated on the code.  On a fresh state, [onMoveBegin] at
    [t = 100] followed by the first render at [t = 100.5] of a window at
    [(50, 0)]: the hook finds [lastTime <> 0], keeps the default last
    position [(0, 0)] and reports the velocity [(100, 0)], not [(0, 0)]. *)
Theorem first_sample_after_beginDrag :
  let pWindow := {| w := F32.of_Z 800; h := F32.of_Z 600;
                    xpos := F32.of_Z 50; ypos := F32.of_Z 0; tex := 7 |} in
  let calls := [BeginDrag (F64.of_Z 100); RenderFrame pWindow (F64.dec 1005 10)] in
  let st := fst (host_calls calls default_state fresh_context) in
  vx st = F32.of_Z 100 /\ vy st = F32.zero /\ F32.eqb (vx st) F32.zero = false.
Proof. vm_compute. repeat split. Qed.

(** C7 as stated fails: [onMoveBegin] writes [lastTime]. *)
Lemma onMoveBegin_writes_lastTime :
  lastTime (fst (onMoveBegin_st (F64.of_Z 5) default_state fresh_context))
  <> lastTime default_state.
Proof. vm_compute. discriminate. Qed.

(** C7, as the code has it.  No event callback and no other operation
    touches the last position or the velocity: only the estimate of the
    render hook writes them.  [onMoveBegin] sets [lastTime] to the current
    time; [onMoveEnd] and [generateGrid] leave [lastTime] alone. *)
Theorem event_callbacks_temporal_fields now st cols rows winW winH g :
  let b := fst (onMoveBegin_st now st g) in
  let m := fst (onMove_st now st g) in
  let e := fst (onMoveEnd_st st g) in
  let gg := fst (generateGrid st cols rows winW winH g) in
  (lastX b = lastX st /\ lastY b = lastY st /\ vx b = vx st /\ vy b = vy st /\
   lastTime b = now) /\
  (lastX m = lastX st /\ lastY m = lastY st /\ vx m = vx st /\ vy m = vy st) /\
  (lastX e = lastX st /\ lastY e = lastY st /\ vx e = vx st /\ vy e = vy st /\
   lastTime e = lastTime st) /\
  (lastX gg = lastX st /\ lastY gg = lastY st /\ vx gg = vx st /\ vy gg = vy st /\
   lastTime gg = lastTime st).
Proof.
  cbv zeta. split; [ | split; [ | split]].
  - unfold onMoveBegin_st, compileShaderProgram, compile, bind, gen, emit, ret.
    cbn [shader set_lastTime set_dragging].
    destruct (shader st =? 0); destruct st; repeat split.
  - destruct st; repeat split.
  - destruct st; repeat split.
  - unfold generateGrid, bind, gen_if_zero, gen, emit, ret.
    destruct (vao st =? 0), (vbo st =? 0), (ebo st =? 0); destruct st; repeat split.
Qed.

Lemma update_velocity_dragging b newX newY now st :
  update_velocity newX newY now (set_dragging b st)
  = set_dragging b (update_velocity newX newY now st).
Proof.
  unfold update_velocity. cbv zeta. cbn [lastTime set_dragging].
  destruct (F64.eqb (lastTime st) F64.zero); destruct st; reflexivity.
Qed.

Lemma generateGrid_dragging b st cols rows winW winH g :
  generateGrid (set_dragging b st) cols rows winW winH g
  = (set_dragging b (fst (generateGrid st cols rows winW winH g)),
     snd (generateGrid st cols rows winW winH g)).
Proof.
  unfold generateGrid, bind, gen_if_zero, gen, emit, ret. cbn [vao vbo ebo set_dragging].
  destruct (vao st =? 0), (vbo st =? 0), (ebo st =? 0); destruct st; reflexivity.
Qed.

Lemma onPreRenderWindow_st_unfold pWindow now st g :
  let r0 := if vao st =? 0
            then generateGrid st (gridCols st) (gridRows st) (w pWindow) (h pWindow) g
            else (st, g) in
  let st' := update_velocity (xpos pWindow) (ypos pWindow) now (fst r0) in
  onPreRenderWindow_st pWindow now st g
  = (st', {| gl_fresh := gl_fresh (snd r0);
             gl_log := gl_log (snd r0) ++ render_commands pWindow now st' |}).
Proof.
  cbv zeta. unfold onPreRenderWindow_st, bind at 1.
  destruct (vao st =? 0).
  - destruct (generateGrid st (gridCols st) (gridRows st) (w pWindow) (h pWindow) g)
      as [st1 g1].
    unfold bind, emit, ret, render_commands. cbn [fst snd gl_log gl_fresh].
    rewrite <- !app_assoc. reflexivity.
  - unfold bind, emit, ret, render_commands. cbn [fst snd gl_log gl_fresh].
    rewrite <- !app_assoc. reflexivity.
Qed.

(** C8.  Two runs of the render hook on states that differ only in
    [dragging], with the same window, time and OpenGL context, end in the
    same context (the same mesh upload, uniforms and draw call) and in
    states that again differ only in [dragging].  The uniforms are
    [uWinSize = (w, h)], [uCenter = (0, 0)], [uVelocity] the new velocity,
    [uTime = now], [uAmplitude = 6.0], [uFrequency = 0.02],
    [uDamping = 0.02]. *)
Theorem render_ignores_dragging pWindow now st g b :
  let r1 := onPreRenderWindow_st pWindow now st g in
  let r2 := onPreRenderWindow_st pWindow now (set_dragging b st) g in
  snd r2 = snd r1 /\
  fst r2 = set_dragging b (fst r1) /\
  exists pre, gl_log (snd r1) = pre ++ render_commands pWindow now (fst r1).
Proof.
  cbv zeta. rewrite !onPreRenderWindow_st_unfold. cbv zeta.
  cbn [vao gridCols gridRows set_dragging fst snd gl_log].
  assert (E : (if vao st =? 0
               then generateGrid (set_dragging b st) (gridCols st) (gridRows st)
                                 (w pWindow) (h pWindow) g
               else (set_dragging b st, g))
              = (set_dragging b (fst (if vao st =? 0
                   then generateGrid st (gridCols st) (gridRows st) (w pWindow) (h pWindow) g
                   else (st, g))),
                 snd (if vao st =? 0
                   then generateGrid st (gridCols st) (gridRows st) (w pWindow) (h pWindow) g
                   else (st, g)))).
  { destruct (vao st =? 0); [apply generateGrid_dragging | reflexivity]. }
  replace (vao (set_dragging b st)) with (vao st) by (destruct st; reflexivity).
  replace (gridCols (set_dragging b st)) with (gridCols st) by (destruct st; reflexivity).
  replace (gridRows (set_dragging b st)) with (gridRows st) by (destruct st; reflexivity).
  rewrite E. cbn [fst snd]. rewrite update_velocity_dragging.
  set (st' := update_velocity (xpos pWindow) (ypos pWindow) now _).
  split; [reflexivity | split; [reflexivity | eexists; reflexivity]].
Qed.

(** ** The vertex shader at and near the disturbance centre *)

Lemma binary_round_aux_not_nan prec emax s mx ex lx :
  0 < prec -> 0 <= mx -> binary_round_aux prec emax s mx ex lx <> S754_nan.
Proof.
  intros Hprec Hmx. unfold binary_round_aux.
  destruct (shr_fexp_spec prec emax mx ex lx Hmx) as (R1 & -> & Hq1 & _).
  assert (H1 : 0 <= round_nearest_even (shr_m R1) (loc_of_shr_record R1)).
  { assert (0 <= shr_m R1) by (rewrite Hq1; apply Z.div_pos; [lia | apply pow2_pos; lia]).
    destruct (rne_cases (shr_m R1) (loc_of_shr_record R1)) as [-> | [-> _]]; lia. }
  destruct (shr_fexp_spec prec emax _ (ex + Z.max 0 (fexp prec emax (Zdigits2 mx + ex) - ex))
              loc_Exact H1) as (R2 & -> & Hq2 & _).
  assert (H2 : 0 <= shr_m R2) by (rewrite Hq2; apply Z.div_pos; [lia | apply pow2_pos; lia]).
  destruct (shr_m R2); [discriminate | | lia].
  destruct (_ <=? _); discriminate.
Qed.

Lemma binary_normalize_not_nan prec emax z e :
  0 < prec -> binary_normalize prec emax z e false <> S754_nan.
Proof.
  intros Hprec. destruct z as [ | p | p]; cbn [binary_normalize]; [discriminate | | ];
    unfold binary_round; destruct (shl_align _ _ _);
    apply binary_round_aux_not_nan; lia.
Qed.

Lemma mul_finite_not_nan a b :
  is_finite a = true -> is_finite b = true -> is_nan (F32.mul a b) = false.
Proof.
  destruct a as [sa | | | sa ma ea]; try discriminate;
    destruct b as [sb | | | sb mb eb]; try discriminate; intros _ _; try reflexivity.
  unfold F32.mul, SFmul.
  pose proof (binary_round_aux_not_nan F32.prec F32.emax (xorb sa sb)
                (Zpos (ma * mb)) (ea + eb) loc_Exact ltac:(reflexivity) ltac:(lia)) as H.
  destruct (binary_round_aux _ _ _ _ _ _); try reflexivity. congruence.
Qed.

Lemma add_finite_not_nan a b :
  is_finite a = true -> is_nan b = false -> is_nan (F32.add a b) = false.
Proof.
  destruct a as [sa | | | sa ma ea]; try discriminate;
    destruct b as [sb | sb | | sb mb eb]; try discriminate; intros _ _;
    try reflexivity; try (destruct sa, sb; reflexivity).
  unfold F32.add, SFadd.
  match goal with |- is_nan (binary_normalize ?p ?m ?z ?e false) = false =>
    pose proof (binary_normalize_not_nan p m z e ltac:(reflexivity)) as H;
    destruct (binary_normalize p m z e false); try reflexivity; congruence
  end.
Qed.

Lemma mag_le_finite k a : mag_le k a -> is_finite a = true.
Proof. destruct a; simpl; tauto. Qed.

Lemma mul_mag_le a b ka kb :
  mag_le ka a -> mag_le kb b -> -149 <= ka + kb <= 104 ->
  mag_le (ka + kb) (F32.mul a b).
Proof.
  destruct a as [sa | | | sa ma ea]; try contradiction;
    destruct b as [sb | | | sb mb eb]; try contradiction; intros Ha Hb Hk; try exact I.
  destruct Ha as [Hea Hma]. destruct Hb as [Heb Hmb].
  unfold F32.mul, SFmul.
  destruct (binary_round_aux_upper F32.prec F32.emax ltac:(reflexivity) (xorb sa sb)
              (Zpos (ma * mb)) (ea + eb) loc_Exact (ka + kb))
    as [-> | (m & e & -> & He & Hm & _)]; try exact I;
    try (unfold emin, F32.prec, F32.emax; lia).
  - unfold loc_bit; cbn [loc_inexact]. rewrite Z.add_0_r, Pos2Z.inj_mul.
    replace (ka + kb - (ea + eb)) with ((ka - ea) + (kb - eb)) by lia.
    rewrite Z.pow_add_r by lia.
    pose proof (pow2_pos (ka - ea) ltac:(lia)). pose proof (pow2_pos (kb - eb) ltac:(lia)). nia.
  - split; assumption.
Qed.

Lemma cond_Zopp_abs s z : Z.abs (cond_Zopp s z) = Z.abs z.
Proof. destruct s; simpl; lia. Qed.

Lemma add_mag_le a b k :
  mag_le k a -> mag_le k b -> -149 <= k + 1 <= 104 ->
  mag_le (k + 1) (F32.add a b).
Proof.
  assert (Hmono : forall c, mag_le k c -> mag_le (k + 1) c).
  { intros [ | | | s m e]; simpl; try tauto. intros [He Hm]. split; [lia | ].
    replace (k + 1 - e) with ((k - e) + 1) by lia. rewrite Z.pow_add_r by lia.
    pose proof (pow2_pos (k - e) ltac:(lia)). lia. }
  destruct a as [sa | | | sa ma ea]; try contradiction;
    destruct b as [sb | | | sb mb eb]; try contradiction; intros Ha Hb Hk.
  - destruct sa, sb; exact I.
  - apply Hmono. exact Hb.
  - apply Hmono. exact Ha.
  - destruct Ha as [Hea Hma]. destruct Hb as [Heb Hmb].
    unfold F32.add, SFadd. set (ez := Z.min ea eb).
    destruct (shl_align_spec ma ea ez) as [_ H1].
    destruct (shl_align_spec mb eb ez) as [_ H2].
    replace (Z.min ea ez) with ez in H1 by (unfold ez; lia).
    replace (Z.min eb ez) with ez in H2 by (unfold ez; lia).
    set (za := cond_Zopp sa (Z.pos (fst (shl_align ma ea ez)))).
    set (zb := cond_Zopp sb (Z.pos (fst (shl_align mb eb ez)))).
    assert (Hza : Z.abs za <= 2 ^ (k - ez)).
    { unfold za. rewrite cond_Zopp_abs, H1.
      replace (k - ez) with ((k - ea) + (ea - ez)) by lia.
      rewrite Z.pow_add_r by (unfold ez; lia).
      pose proof (pow2_pos (ea - ez) ltac:(unfold ez; lia)). nia. }
    assert (Hzb : Z.abs zb <= 2 ^ (k - ez)).
    { unfold zb. rewrite cond_Zopp_abs, H2.
      replace (k - ez) with ((k - eb) + (eb - ez)) by lia.
      rewrite Z.pow_add_r by (unfold ez; lia).
      pose proof (pow2_pos (eb - ez) ltac:(unfold ez; lia)). nia. }
    assert (Hsum : Z.abs (za + zb) <= 2 ^ (k + 1 - ez)).
    { replace (k + 1 - ez) with ((k - ez) + 1) by lia.
      rewrite Z.pow_add_r by (unfold ez; lia). lia. }
    assert (Hez : ez <= k) by (unfold ez; lia).
    unfold binary_normalize. generalize dependent (za + zb). clearbody ez.
    intros z Hz. destruct z as [ | p | p]; [exact I | | ].
    + destruct (binary_round_upper F32.prec F32.emax ltac:(reflexivity) false p ez (k + 1))
        as [-> | (m & e & -> & He & Hm & _)]; try exact I;
        try (unfold emin, F32.prec, F32.emax; lia).
      split; assumption.
    + destruct (binary_round_upper F32.prec F32.emax ltac:(reflexivity) true p ez (k + 1))
        as [-> | (m & e & -> & He & Hm & _)]; try exact I;
        try (unfold emin, F32.prec, F32.emax; lia).
      split; assumption.
Qed.

Lemma shader_dir_at_centre uCenter :
  is_finite (fst uCenter) = true -> is_finite (snd uCenter) = true ->
  shader_dir uCenter uCenter = (DIR_AT_CENTRE, DIR_AT_CENTRE).
Proof.
  intros Hx Hy. unfold shader_dir, F32.sub. cbv zeta.
  rewrite !SFsub_diag by assumption. vm_compute. reflexivity.
Qed.

Lemma mag_le_DIR_AT_CENTRE : mag_le 0 DIR_AT_CENTRE.
Proof. simpl. split; [lia | ]. change (2 ^ (0 - -24)) with 16777216. lia. Qed.

(** C9, as the code has it.  At [localOffset == center] (finite) the
    direction is [normalize(vec2(0.0001, 0.0001))], the same finite vector
    for every input, so the result is [center + DIR * disp] and the
    normalisation contributes no NaN: the result has no NaN when [disp] is
    finite, and no NaN and no Inf when [|disp|] and the components of
    [center] are at most [2^k] for some [k <= 103].  (Finite inputs can still
    overflow [disp].) *)
Theorem displaced_at_centre
  glsl_sin glsl_exp uCenter uVelocity uTime uAmplitude uFrequency uDamping :
  is_finite (fst uCenter) = true -> is_finite (snd uCenter) = true ->
  let disp := shader_disp glsl_sin glsl_exp uCenter uVelocity
                          uTime uAmplitude uFrequency uDamping uCenter in
  let result := displaced glsl_sin glsl_exp uCenter uVelocity
                          uTime uAmplitude uFrequency uDamping uCenter in
  shader_dir uCenter uCenter = (DIR_AT_CENTRE, DIR_AT_CENTRE) /\
  result = (F32.add (fst uCenter) (F32.mul DIR_AT_CENTRE disp),
            F32.add (snd uCenter) (F32.mul DIR_AT_CENTRE disp)) /\
  (is_finite disp = true ->
   is_nan (fst result) = false /\ is_nan (snd result) = false) /\
  (forall k, -149 <= k <= 103 ->
     mag_le k disp -> mag_le k (fst uCenter) -> mag_le k (snd uCenter) ->
     is_finite (fst result) = true /\ is_finite (snd result) = true).
Proof.
  intros Hx Hy disp result.
  pose proof (shader_dir_at_centre uCenter Hx Hy) as Hdir.
  assert (Hres : result = (F32.add (fst uCenter) (F32.mul DIR_AT_CENTRE disp),
                           F32.add (snd uCenter) (F32.mul DIR_AT_CENTRE disp))).
  { unfold result, displaced. cbv zeta. rewrite Hdir. reflexivity. }
  split; [exact Hdir | ]. split; [exact Hres | ]. rewrite Hres. cbn [fst snd]. split.
  - intros Hd.
    assert (Hm : is_nan (F32.mul DIR_AT_CENTRE disp) = false)
      by (apply mul_finite_not_nan; [reflexivity | exact Hd]).
    split; apply add_finite_not_nan; assumption.
  - intros k Hk Hd Hcx Hcy.
    pose proof (mul_mag_le DIR_AT_CENTRE disp 0 k mag_le_DIR_AT_CENTRE Hd ltac:(lia)) as Hm.
    change (0 + k) with k in Hm.
    split; apply (mag_le_finite (k + 1)); apply add_mag_le; try assumption; lia.
Qed.

Lemma displaced_at_centre_witness :
  let id := fun a : F32.t => a in
  let c := (F32.of_Z 3, F32.of_Z 4) in
  let disp := shader_disp id id c (F32.of_Z 1, F32.zero)
                          (F32.of_Z 2) (F32.of_Z 6) (F32.dec 2 100) (F32.dec 2 100) c in
  let result := displaced id id c (F32.of_Z 1, F32.zero)
                          (F32.of_Z 2) (F32.of_Z 6) (F32.dec 2 100) (F32.dec 2 100) c in
  shader_dir c c = (DIR_AT_CENTRE, DIR_AT_CENTRE) /\
  result = (F32.add (fst c) (F32.mul DIR_AT_CENTRE disp),
            F32.add (snd c) (F32.mul DIR_AT_CENTRE disp)) /\
  (is_finite disp = true ->
   is_nan (fst result) = false /\ is_nan (snd result) = false) /\
  (forall k, -149 <= k <= 103 ->
     mag_le k disp -> mag_le k (fst c) -> mag_le k (snd c) ->
     is_finite (fst result) = true /\ is_finite (snd result) = true).
Proof.
  apply (displaced_at_centre (fun a => a) (fun a => a) (F32.of_Z 3, F32.of_Z 4));
    reflexivity.
Defined.

(** C9 as stated fails, whatever [sin] and [exp] compute: with the finite
    velocity [(FLT_MAX, 0)] the factor [1 + |velocity| * 5] overflows, and the
    result at the centre is infinite or NaN. *)
Lemma displaced_at_centre_overflows :
  ~ (exists glsl_sin glsl_exp : F32.t -> F32.t,
       forall uCenter uVelocity uTime uAmplitude uFrequency uDamping,
         is_finite (fst uCenter) = true -> is_finite (snd uCenter) = true ->
         is_finite (fst uVelocity) = true -> is_finite (snd uVelocity) = true ->
         is_finite uTime = true -> is_finite uAmplitude = true ->
         is_finite uFrequency = true -> is_finite uDamping = true ->
         let result := displaced glsl_sin glsl_exp uCenter uVelocity
                                 uTime uAmplitude uFrequency uDamping uCenter in
         is_finite (fst result) = true /\ is_finite (snd result) = true).
Proof.
  intros (gs & ge & H).
  specialize (H (F32.zero, F32.zero) (FLT_MAX, F32.zero) F32.zero (F32.of_Z 6)
                (F32.dec 2 100) (F32.dec 2 100)
                eq_refl eq_refl eq_refl eq_refl eq_refl eq_refl eq_refl eq_refl).
  cbv zeta in H. destruct H as [H _].
  unfold displaced, shader_disp in H. cbv zeta in H. cbn [fst] in H.
  revert H.
  generalize (shader_wave gs ge (F32.zero, F32.zero) F32.zero (F32.of_Z 6)
                (F32.dec 2 100) (F32.dec 2 100) (F32.zero, F32.zero)).
  intros [[ | ] | [ | ] | | [ | ] m e]; vm_compute; discriminate.
Qed.

(** C10.  When both components of [localOffset - center] are [-0.0001], the
    biased vector [d + (0.0001, 0.0001)] is the zero vector, its
    normalisation is [0/0], and both components of the displaced position are
    NaN, for every wave value.  The offset [(-0.0001, -0.0001)] from the
    centre [(0, 0)] is such an input: the bias moves the singular point, it
    does not remove it. *)
Theorem displaced_nan_at_shifted_centre
  glsl_sin glsl_exp uCenter uVelocity uTime uAmplitude uFrequency uDamping aPos :
  F32.sub (fst aPos) (fst uCenter) = F32.opp (F32.dec 1 10000) ->
  F32.sub (snd aPos) (snd uCenter) = F32.opp (F32.dec 1 10000) ->
  F32.add (F32.sub (fst aPos) (fst uCenter)) (F32.dec 1 10000) = F32.zero /\
  F32.add (F32.sub (snd aPos) (snd uCenter)) (F32.dec 1 10000) = F32.zero /\
  shader_dir uCenter aPos = (S754_nan, S754_nan) /\
  displaced glsl_sin glsl_exp uCenter uVelocity uTime uAmplitude uFrequency uDamping aPos
  = (S754_nan, S754_nan).
Proof.
  intros Hx Hy.
  assert (Hdir : shader_dir uCenter aPos = (S754_nan, S754_nan)).
  { unfold shader_dir. cbv zeta. rewrite Hx, Hy. vm_compute. reflexivity. }
  rewrite Hx, Hy. split; [vm_compute; reflexivity | ]. split; [vm_compute; reflexivity | ].
  split; [exact Hdir | ].
  unfold displaced. cbv zeta. rewrite Hdir. cbn [fst snd].
  change (F32.mul S754_nan ?d) with S754_nan.
  destruct aPos as [[ | | | ] [ | | | ]]; reflexivity.
Qed.

Lemma displaced_nan_at_shifted_centre_witness :
  let eps := F32.dec 1 10000 in
  let aPos := (F32.opp eps, F32.opp eps) in
  let c := (F32.zero, F32.zero) in
  F32.add (F32.sub (fst aPos) (fst c)) eps = F32.zero /\
  F32.add (F32.sub (snd aPos) (snd c)) eps = F32.zero /\
  shader_dir c aPos = (S754_nan, S754_nan) /\
  displaced (fun a => a) (fun a => a) c (F32.of_Z 1, F32.zero)
            (F32.of_Z 2) (F32.of_Z 6) (F32.dec 2 100) (F32.dec 2 100) aPos
  = (S754_nan, S754_nan).
Proof.
  apply (displaced_nan_at_shifted_centre (fun a => a) (fun a => a) (F32.zero, F32.zero));
    vm_compute; reflexivity.
Defined.

(** ** The registry *)

Lemma lookup_store_same g k st : lookup (store g k st) k = Some st.
Proof.
  induction g as [ | [k' st'] g IH]; cbn [store lookup].
  - rewrite Z.eqb_refl. reflexivity.
  - destruct (Z.eqb_spec k' k) as [E | E]; cbn [lookup].
    + rewrite Z.eqb_refl. reflexivity.
    + destruct (Z.eqb_spec k' k); [contradiction | exact IH].
Qed.

Lemma lookup_store_other g k k' st : k' <> k -> lookup (store g k st) k' = lookup g k'.
Proof.
  intros Hk. induction g as [ | [k0 st0] g IH]; cbn [store lookup].
  - destruct (Z.eqb_spec k k'); [congruence | reflexivity].
  - destruct (Z.eqb_spec k0 k) as [E | E]; cbn [lookup].
    + subst k0. destruct (Z.eqb_spec k k'); [congruence | reflexivity].
    + destruct (Z.eqb_spec k0 k'); [reflexivity | exact IH].
Qed.

Lemma with_entry_lookup pWin body g gl :
  lookup (fst (with_entry pWin body g gl)) pWin
  = Some (fst (body (get_or_create g pWin) gl)) /\
  snd (with_entry pWin body g gl) = snd (body (get_or_create g pWin) gl) /\
  forall other, other <> pWin ->
    lookup (fst (with_entry pWin body g gl)) other = lookup g other.
Proof.
  unfold with_entry, bind, ret.
  destruct (body (get_or_create g pWin) gl) as [st' gl']. cbn [fst snd].
  split; [apply lookup_store_same | split; [reflexivity | ]].
  intros other Ho. apply lookup_store_other. exact Ho.
Qed.

(** X1.  Every callback reads and writes the entry of its own window
    only.  For [onMoveBegin], [onMove], [onMoveEnd] and the render hook
    alike, the new entry of [pWin] and the OpenGL context are those of the
    callback body run on the old entry of [pWin], which is the default state
    when [pWin] has none; no other entry is read or changed.  A render call
    with a null window pointer changes nothing at all. *)
Theorem callbacks_touch_one_entry pWin pWindow now :
  entry_callback (onMoveBegin pWin now) (onMoveBegin_st now) pWin /\
  entry_callback (onMove pWin now) (onMove_st now) pWin /\
  entry_callback (onMoveEnd pWin) onMoveEnd_st pWin /\
  (pWin <> 0 ->
   entry_callback (onPreRenderWindow pWin pWindow now)
                  (onPreRenderWindow_st pWindow now) pWin) /\
  (forall g gl, onPreRenderWindow 0 pWindow now g gl = (g, gl)).
Proof.
  assert (Hgen : forall body, entry_callback (with_entry pWin body) body pWin).
  { intros body g gl.
    destruct (with_entry_lookup pWin body g gl) as (H1 & H2 & H3).
    split; [exact H1 | ]. split; [exact H2 | ]. split; [ | split; [exact H3 | ]].
    - intros Hnone. rewrite H1. unfold get_or_create. rewrite Hnone. reflexivity.
    - intros g' Hsame.
      destruct (with_entry_lookup pWin body g' gl) as (H1' & H2' & _).
      assert (E : get_or_create g' pWin = get_or_create g pWin)
        by (unfold get_or_create; rewrite Hsame; reflexivity).
      rewrite H1, H2, H1', H2', E. split; reflexivity. }
  split; [apply Hgen | ]. split; [apply Hgen | ]. split; [apply Hgen | ]. split.
  - intros Hnz. unfold onPreRenderWindow.
    destruct (Z.eqb_spec pWin 0) as [E | _]; [contradiction | apply Hgen].
  - reflexivity.
Qed.

Lemma callbacks_touch_one_entry_witness :
  entry_callback
    (onPreRenderWindow 1 {| w := F32.of_Z 800; h := F32.of_Z 600;
                            xpos := F32.of_Z 50; ypos := F32.of_Z 0; tex := 7 |}
                       (F64.of_Z 100))
    (onPreRenderWindow_st {| w := F32.of_Z 800; h := F32.of_Z 600;
                             xpos := F32.of_Z 50; ypos := F32.of_Z 0; tex := 7 |}
                          (F64.of_Z 100)) 1.
Proof.
  apply (proj1 (proj2 (proj2 (proj2
           (callbacks_touch_one_entry 1
              {| w := F32.of_Z 800; h := F32.of_Z 600;
                 xpos := F32.of_Z 50; ypos := F32.of_Z 0; tex := 7 |}
              (F64.of_Z 100)))))).
  lia.
Defined.

(** ** Lazily created OpenGL objects *)

Lemma generateGrid_result st cols rows winW winH g :
  let r := generateGrid st cols rows winW winH g in
  (dragging (fst r) = dragging st /\ shader (fst r) = shader st /\
   texId (fst r) = texId st) /\
  (gridCols (fst r) = cols /\ gridRows (fst r) = rows /\
   indexCount (fst r) = wrap_int (Z.of_nat (List.length (grid_idx cols rows)))) /\
  gl_fresh g <= gl_fresh (snd r) /\
  (0 < gl_fresh g -> vao (fst r) <> 0 /\ vbo (fst r) <> 0 /\ ebo (fst r) <> 0) /\
  (vao st <> 0 -> vao (fst r) = vao st).
Proof.
  unfold generateGrid, bind, gen_if_zero, gen, emit, ret.
  destruct (Z.eqb_spec (vao st) 0), (Z.eqb_spec (vbo st) 0), (Z.eqb_spec (ebo st) 0);
    cbn [fst snd gl_fresh dragging shader texId gridCols gridRows indexCount vao vbo ebo];
    repeat split; try lia; try congruence.
Qed.

(** X2.  The mesh is built on the first render call of a window and never
    again: the call that finds [vao == 0] obtains a vertex array (names
    handed out by OpenGL are not zero), and the next render call uploads
    nothing, hands out no name and issues exactly the uniform and draw
    commands, also when the window has another size by then. *)
Theorem mesh_built_once pWindow1 now1 pWindow2 now2 st g :
  0 < gl_fresh g -> vao st = 0 ->
  let r1 := onPreRenderWindow_st pWindow1 now1 st g in
  let r2 := onPreRenderWindow_st pWindow2 now2 (fst r1) (snd r1) in
  vao (fst r1) <> 0 /\
  In (ArrayBufferData (grid_verts (gridCols st) (gridRows st) (w pWindow1) (h pWindow1)))
     (gl_log (snd r1)) /\
  gl_log (snd r2) = gl_log (snd r1) ++ render_commands pWindow2 now2 (fst r2) /\
  gl_fresh (snd r2) = gl_fresh (snd r1) /\
  vao (fst r2) = vao (fst r1) /\ vbo (fst r2) = vbo (fst r1) /\
  ebo (fst r2) = ebo (fst r1) /\ indexCount (fst r2) = indexCount (fst r1).
Proof.
  intros Hfresh Hvao r1 r2.
  assert (E1 : r1 = onPreRenderWindow_st pWindow1 now1 st g) by reflexivity.
  rewrite onPreRenderWindow_st_unfold in E1. cbv zeta in E1.
  rewrite Hvao in E1. cbn [Z.eqb] in E1.
  destruct (generateGrid_result st (gridCols st) (gridRows st) (w pWindow1) (h pWindow1) g)
    as (_ & _ & _ & Hnz & _).
  destruct (generateGrid_uploads st (gridCols st) (gridRows st) (w pWindow1) (h pWindow1) g)
    as (Hup & _).
  specialize (Hnz Hfresh). destruct Hnz as (Hnz & _).
  set (r0 := generateGrid st (gridCols st) (gridRows st) (w pWindow1) (h pWindow1) g) in *.
  destruct (update_velocity_fields (xpos pWindow1) (ypos pWindow1) now1 (fst r0))
    as (_ & _ & _ & _ & Hv & _).
  assert (Hv1 : vao (fst r1) <> 0) by (rewrite E1; cbn [fst]; rewrite Hv; exact Hnz).
  split; [exact Hv1 | ].
  split; [rewrite E1; cbn [snd gl_log]; apply in_or_app; left; exact Hup | ].
  assert (E2 : r2 = onPreRenderWindow_st pWindow2 now2 (fst r1) (snd r1)) by reflexivity.
  rewrite onPreRenderWindow_st_unfold in E2. cbv zeta in E2.
  destruct (Z.eqb_spec (vao (fst r1)) 0) as [E | _]; [contradiction | ].
  cbn [fst snd] in E2.
  destruct (update_velocity_fields (xpos pWindow2) (ypos pWindow2) now2 (fst r1))
    as (_ & _ & _ & _ & Hva & Hvb & Heb & _ & _ & _ & Hic & _).
  rewrite E2. cbn [fst snd gl_log gl_fresh]. repeat split; assumption.
Qed.

Lemma mesh_built_once_witness :
  let pWindow1 := {| w := F32.of_Z 800; h := F32.of_Z 600;
                     xpos := F32.of_Z 50; ypos := F32.of_Z 0; tex := 7 |} in
  let pWindow2 := {| w := F32.of_Z 400; h := F32.of_Z 300;
                     xpos := F32.of_Z 60; ypos := F32.of_Z 0; tex := 7 |} in
  let r1 := onPreRenderWindow_st pWindow1 (F64.of_Z 100) default_state fresh_context in
  let r2 := onPreRenderWindow_st pWindow2 (F64.of_Z 101) (fst r1) (snd r1) in
  vao (fst r1) <> 0 /\
  In (ArrayBufferData (grid_verts (gridCols default_state) (gridRows default_state)
                                  (w pWindow1) (h pWindow1)))
     (gl_log (snd r1)) /\
  gl_log (snd r2) = gl_log (snd r1) ++ render_commands pWindow2 (F64.of_Z 101) (fst r2) /\
  gl_fresh (snd r2) = gl_fresh (snd r1) /\
  vao (fst r2) = vao (fst r1) /\ vbo (fst r2) = vbo (fst r1) /\
  ebo (fst r2) = ebo (fst r1) /\ indexCount (fst r2) = indexCount (fst r1).
Proof.
  apply (mesh_built_once
           {| w := F32.of_Z 800; h := F32.of_Z 600;
              xpos := F32.of_Z 50; ypos := F32.of_Z 0; tex := 7 |} (F64.of_Z 100)
           {| w := F32.of_Z 400; h := F32.of_Z 300;
              xpos := F32.of_Z 60; ypos := F32.of_Z 0; tex := 7 |} (F64.of_Z 101)
           default_state fresh_context).
  - reflexivity.
  - reflexivity.
Defined.

(** X3.  The shader program is built by the first [onMoveBegin] of a window
    and by no later one: the call that finds [shader == 0] links a program
    and stores its (non-zero) name; the next [onMoveBegin] issues no OpenGL
    command and only stores the new time, the drag flag being set already. *)
Theorem shader_compiled_once now1 now2 st g :
  0 < gl_fresh g -> shader st = 0 ->
  let r1 := onMoveBegin_st now1 st g in
  let r2 := onMoveBegin_st now2 (fst r1) (snd r1) in
  shader (fst r1) <> 0 /\
  In (LinkProgram (shader (fst r1))) (gl_log (snd r1)) /\
  dragging (fst r1) = true /\
  snd r2 = snd r1 /\
  fst r2 = set_lastTime now2 (fst r1).
Proof.
  intros Hfresh Hsh r1 r2.
  assert (E1 : r1 = onMoveBegin_st now1 st g) by reflexivity.
  unfold onMoveBegin_st in E1. cbv zeta in E1.
  replace (shader (set_lastTime now1 (set_dragging true st))) with (shader st) in E1
    by (destruct st; reflexivity).
  rewrite Hsh in E1. cbn [Z.eqb] in E1.
  unfold compileShaderProgram, compile, bind, gen, emit, ret in E1.
  cbn [gl_fresh gl_log] in E1.
  assert (Hs1 : shader (fst r1) = gl_fresh g + 1 + 1)
    by (rewrite E1; destruct st; reflexivity).
  assert (Hd1 : dragging (fst r1) = true) by (rewrite E1; destruct st; reflexivity).
  split; [lia | ]. split.
  { rewrite Hs1, E1. cbn [snd gl_log]. rewrite !in_app_iff. cbn [In]. tauto. }
  split; [exact Hd1 | ].
  subst r2. unfold onMoveBegin_st. cbv zeta.
  replace (shader (set_lastTime now2 (set_dragging true (fst r1)))) with (shader (fst r1))
    by (destruct (fst r1); reflexivity).
  destruct (Z.eqb_spec (shader (fst r1)) 0) as [E | _]; [lia | ].
  unfold ret. cbn [fst snd]. split; [reflexivity | ].
  destruct (fst r1); cbn [dragging] in Hd1; subst; reflexivity.
Qed.

Lemma shader_compiled_once_witness :
  let r1 := onMoveBegin_st (F64.of_Z 100) default_state fresh_context in
  let r2 := onMoveBegin_st (F64.of_Z 101) (fst r1) (snd r1) in
  shader (fst r1) <> 0 /\
  In (LinkProgram (shader (fst r1))) (gl_log (snd r1)) /\
  dragging (fst r1) = true /\
  snd r2 = snd r1 /\
  fst r2 = set_lastTime (F64.of_Z 101) (fst r1).
Proof.
  apply (shader_compiled_once (F64.of_Z 100) (F64.of_Z 101) default_state fresh_context);
    reflexivity.
Defined.

Lemma generateGrid_log st cols rows winW winH g :
  exists new,
    gl_log (snd (generateGrid st cols rows winW winH g)) = gl_log g ++ new /\
    forallb (fun c => negb (builds_program c)) new = true.
Proof.
  unfold generateGrid, bind, gen_if_zero, gen, emit, ret.
  destruct (vao st =? 0), (vbo st =? 0), (ebo st =? 0); cbn [fst snd gl_log gl_fresh];
    rewrite <- !app_assoc; eexists; (split; [reflexivity | reflexivity]).
Qed.

(** X4.  The render hook builds no shader program: it leaves [shader] as it
    finds it and none of the commands it issues creates, compiles or links
    one.  A window that is rendered before its first [onMoveBegin] is
    therefore drawn with program 0. *)
Theorem render_builds_no_program pWindow now st g :
  let r := onPreRenderWindow_st pWindow now st g in
  shader (fst r) = shader st /\
  exists new,
    gl_log (snd r) = gl_log g ++ new /\
    forallb (fun c => negb (builds_program c)) new = true /\
    In (UseProgram (shader st)) new /\
    In (Uniform2f (shader st) "uVelocity" (vx (fst r)) (vy (fst r))) new.
Proof.
  cbv zeta. rewrite onPreRenderWindow_st_unfold. cbv zeta. cbn [fst snd gl_log].
  set (r0 := if vao st =? 0
             then generateGrid st (gridCols st) (gridRows st) (w pWindow) (h pWindow) g
             else (st, g)).
  assert (H0 : shader (fst r0) = shader st /\
               exists new, gl_log (snd r0) = gl_log g ++ new /\
                           forallb (fun c => negb (builds_program c)) new = true).
  { unfold r0. destruct (vao st =? 0).
    - split; [apply generateGrid_result | apply generateGrid_log].
    - split; [reflexivity | ]. exists []. rewrite app_nil_r. split; reflexivity. }
  destruct H0 as (Hsh & new & Hlog & Hall).
  destruct (update_velocity_fields (xpos pWindow) (ypos pWindow) now (fst r0))
    as (_ & _ & _ & _ & _ & _ & _ & Hs & _).
  set (st' := update_velocity (xpos pWindow) (ypos pWindow) now (fst r0)) in *.
  assert (Hs' : shader st' = shader st) by congruence.
  split; [exact Hs' | ].
  exists (new ++ render_commands pWindow now st').
  rewrite Hlog, app_assoc. split; [reflexivity | ]. split.
  - rewrite forallb_app, Hall. reflexivity.
  - rewrite <- Hs'. split; apply in_or_app; right; unfold render_commands; cbn [In]; tauto.
Qed.

(** ** Invariants over sequences of host calls *)

Lemma host_calls_cons c cs st g :
  host_calls (c :: cs) st g
  = host_calls cs (fst (host_call c st g)) (snd (host_call c st g)).
Proof.
  cbn [host_calls]. unfold bind. destruct (host_call c st g); reflexivity.
Qed.

Lemma onPreRenderWindow_st_fields pWindow now st g :
  let r := onPreRenderWindow_st pWindow now st g in
  dragging (fst r) = dragging st /\ lastTime (fst r) = now /\
  gridCols (fst r) = gridCols st /\ gridRows (fst r) = gridRows st /\
  gl_fresh g <= gl_fresh (snd r) /\
  (vao st <> 0 -> vao (fst r) = vao st /\ indexCount (fst r) = indexCount st) /\
  (vao st = 0 -> 0 < gl_fresh g ->
   vao (fst r) <> 0 /\
   indexCount (fst r)
   = wrap_int (Z.of_nat (List.length (grid_idx (gridCols st) (gridRows st))))).
Proof.
  cbv zeta. rewrite onPreRenderWindow_st_unfold. cbv zeta. cbn [fst snd gl_fresh].
  set (r0 := if vao st =? 0
             then generateGrid st (gridCols st) (gridRows st) (w pWindow) (h pWindow) g
             else (st, g)).
  destruct (update_velocity_fields (xpos pWindow) (ypos pWindow) now (fst r0))
    as (_ & _ & Ht & Hd & Hva & _ & _ & _ & Hc & Hr & Hic & _).
  rewrite Ht, Hd, Hva, Hc, Hr, Hic. unfold r0.
  destruct (generateGrid_result st (gridCols st) (gridRows st) (w pWindow) (h pWindow) g)
    as ((G1 & _) & (G2 & G3 & G4) & G5 & G6 & G7).
  destruct (Z.eqb_spec (vao st) 0) as [E | E]; cbn [fst snd].
  - repeat split; try assumption; try contradiction. apply G6. assumption.
  - repeat split; try lia; try contradiction.
Qed.

Lemma host_call_step c st g :
  let r := host_call c st g in
  dragging (fst r) = last_drag [c] (dragging st) /\
  lastTime (fst r) = last_clock [c] (lastTime st) /\
  gridCols (fst r) = gridCols st /\ gridRows (fst r) = gridRows st /\
  gl_fresh g <= gl_fresh (snd r).
Proof.
  destruct c as [now | now | | pWindow now]; cbn [host_call last_drag last_clock].
  - unfold onMoveBegin_st, compileShaderProgram, compile, bind, gen, emit, ret.
    cbn [shader set_lastTime set_dragging].
    destruct (shader st =? 0); destruct st; cbn; repeat split; lia.
  - destruct st; cbn; repeat split; lia.
  - destruct st; cbn; repeat split; lia.
  - destruct (onPreRenderWindow_st_fields pWindow now st g) as (H1 & H2 & H3 & H4 & H5 & _).
    repeat split; assumption.
Qed.

Lemma last_drag_cons c cs b : last_drag (c :: cs) b = last_drag cs (last_drag [c] b).
Proof. destruct c; reflexivity. Qed.

Lemma last_clock_cons c cs t : last_clock (c :: cs) t = last_clock cs (last_clock [c] t).
Proof. destruct c; reflexivity. Qed.

Lemma host_calls_fields cs : forall st g,
  let r := host_calls cs st g in
  dragging (fst r) = last_drag cs (dragging st) /\
  lastTime (fst r) = last_clock cs (lastTime st) /\
  gridCols (fst r) = gridCols st /\ gridRows (fst r) = gridRows st /\
  gl_fresh g <= gl_fresh (snd r).
Proof.
  induction cs as [ | c cs IH]; intros st g.
  - cbn. repeat split; lia.
  - cbv zeta. rewrite host_calls_cons, last_drag_cons, last_clock_cons.
    destruct (host_call_step c st g) as (H1 & H2 & H3 & H4 & H5).
    destruct (IH (fst (host_call c st g)) (snd (host_call c st g)))
      as (I1 & I2 & I3 & I4 & I5).
    rewrite I1, I2, I3, I4, H1, H2, H3, H4. repeat split; lia.
Qed.

(** X5.  After any sequence of host calls the drag flag is the one set by the
    last [onMoveBegin]/[onMoveEnd] of the sequence (the initial flag when
    there is none): [onMove] and the render hook never change it. *)
Theorem dragging_follows_last_drag_event cs st g :
  dragging (fst (host_calls cs st g)) = last_drag cs (dragging st).
Proof. apply host_calls_fields. Qed.

(** X6.  After any sequence of host calls [lastTime] is the clock reading of
    the last [onMoveBegin], [onMove] or render call of the sequence: every
    one of them overwrites it, [onMoveEnd] does not.  So the [dt] of a render
    call is measured from the latest of these calls, not from the previous
    render call. *)
Theorem lastTime_follows_last_timed_call cs st g :
  lastTime (fst (host_calls cs st g)) = last_clock cs (lastTime st).
Proof. apply host_calls_fields. Qed.

Lemma default_grid_index_count :
  wrap_int (Z.of_nat (List.length (grid_idx 20 12))) = 1440.
Proof. vm_compute. reflexivity. Qed.

Lemma host_calls_grid cs : forall st g,
  0 < gl_fresh g -> gridCols st = 20 -> gridRows st = 12 ->
  (vao st = 0 /\ indexCount st = 0) \/ (vao st <> 0 /\ indexCount st = 1440) ->
  let st' := fst (host_calls cs st g) in
  (vao st' = 0 /\ indexCount st' = 0 /\ vao st = 0 /\ has_render cs = false) \/
  (vao st' <> 0 /\ indexCount st' = 1440 /\ (vao st <> 0 \/ has_render cs = true)).
Proof.
  induction cs as [ | c cs IH]; intros st g Hf Hc Hr Hinv.
  - cbn. destruct Hinv as [[H1 H2] | [H1 H2]]; [left | right]; tauto.
  - cbv zeta. rewrite host_calls_cons.
    destruct (host_call_step c st g) as (_ & _ & S3 & S4 & S5).
    assert (Hstep : (vao (fst (host_call c st g)) = 0 /\
                     indexCount (fst (host_call c st g)) = 0 /\
                     vao st = 0 /\ has_render [c] = false) \/
                    (vao (fst (host_call c st g)) <> 0 /\
                     indexCount (fst (host_call c st g)) = 1440 /\
                     (vao st <> 0 \/ has_render [c] = true))).
    { destruct c as [now | now | | pWindow now]; cbn [host_call has_render].
      - unfold onMoveBegin_st, compileShaderProgram, compile, bind, gen, emit, ret.
        cbn [shader set_lastTime set_dragging].
        destruct (shader st =? 0); destruct st; cbn in *; tauto.
      - destruct st; cbn in *; tauto.
      - destruct st; cbn in *; tauto.
      - destruct (onPreRenderWindow_st_fields pWindow now st g)
          as (_ & _ & _ & _ & _ & Hkeep & Hnew).
        destruct Hinv as [[H1 H2] | [H1 H2]].
        + destruct (Hnew H1 Hf) as [N1 N2].
          rewrite Hc, Hr, default_grid_index_count in N2. right. tauto.
        + destruct (Hkeep H1) as [K1 K2]. right. rewrite K1, K2. tauto. }
    specialize (IH (fst (host_call c st g)) (snd (host_call c st g))
                   ltac:(lia) ltac:(congruence) ltac:(congruence) ltac:(tauto)).
    cbv zeta in IH.
    assert (Hhr : has_render (c :: cs) = has_render [c] || has_render cs)
      by (destruct c; reflexivity).
    rewrite Hhr.
    destruct IH as [(I1 & I2 & I3 & I4) | (I1 & I2 & I3)].
    + left. destruct Hstep as [(T1 & T2 & T3 & T4) | (T1 & _)]; [ | contradiction].
      rewrite T4, I4. tauto.
    + right. split; [exact I1 | split; [exact I2 | ]].
      destruct Hstep as [(T1 & T2 & T3 & T4) | (T1 & T2 & T3)].
      * destruct I3 as [I3 | I3]; [contradiction | ]. right. rewrite I3. apply orb_true_r.
      * destruct T3 as [T3 | T3]; [left; exact T3 | right; rewrite T3; reflexivity].
Qed.

(** X7.  From the default state the grid stays at 20 x 12 through every
    sequence of host calls, and the mesh exists exactly when a render call
    has occurred: before the first one there is no vertex array and
    [indexCount] is 0, from then on [indexCount] is 1440 (= 20 * 12 * 6). *)
Theorem default_grid_invariant cs g :
  0 < gl_fresh g ->
  let st := fst (host_calls cs default_state g) in
  gridCols st = 20 /\ gridRows st = 12 /\
  (has_render cs = false -> vao st = 0 /\ indexCount st = 0) /\
  (has_render cs = true -> vao st <> 0 /\ indexCount st = 1440).
Proof.
  intros Hf st.
  destruct (host_calls_fields cs default_state g) as (_ & _ & Hc & Hr & _).
  fold st in Hc, Hr.
  pose proof (host_calls_grid cs default_state g Hf eq_refl eq_refl
                ltac:(left; split; reflexivity)) as H.
  cbv zeta in H. fold st in H.
  split; [exact Hc | split; [exact Hr | ]].
  destruct H as [(H1 & H2 & _ & H4) | (H1 & H2 & [H3 | H3])].
  - split; [tauto | ]. intros E. congruence.
  - exfalso. apply H3. reflexivity.
  - split; [intros E; congruence | tauto].
Qed.

Lemma default_grid_invariant_witness :
  let pWindow := {| w := F32.of_Z 800; h := F32.of_Z 600;
                    xpos := F32.of_Z 50; ypos := F32.of_Z 0; tex := 7 |} in
  let cs := [BeginDrag (F64.of_Z 100); RenderFrame pWindow (F64.of_Z 101); EndDrag] in
  let st := fst (host_calls cs default_state fresh_context) in
  gridCols st = 20 /\ gridRows st = 12 /\
  (has_render cs = false -> vao st = 0 /\ indexCount st = 0) /\
  (has_render cs = true -> vao st <> 0 /\ indexCount st = 1440).
Proof.
  apply (default_grid_invariant
           [BeginDrag (F64.of_Z 100);
            RenderFrame {| w := F32.of_Z 800; h := F32.of_Z 600;
                           xpos := F32.of_Z 50; ypos := F32.of_Z 0; tex := 7 |}
                        (F64.of_Z 101);
            EndDrag] fresh_context).
  reflexivity.
Defined.

(** ** More on the velocity estimate *)

(** X8.  A window that has not moved since the last sample has velocity exactly
    [(0, 0)], whatever the clock reads: the estimate falls back to zero as
    soon as the position stops changing. *)
Theorem velocity_zero_when_stopped now st :
  is_finite (lastX st) = true -> is_finite (lastY st) = true ->
  let st' := update_velocity (lastX st) (lastY st) now st in
  vx st' = F32.zero /\ vy st' = F32.zero /\
  lastX st' = lastX st /\ lastY st' = lastY st.
Proof.
  intros HX HY st'.
  destruct (update_velocity_fields (lastX st) (lastY st) now st) as (H1 & H2 & _).
  fold st' in H1, H2.
  assert (Hv : vx st' = F32.zero /\ vy st' = F32.zero).
  { destruct (F64.eqb (lastTime st) F64.zero) eqn:E0.
    - apply update_velocity_first; assumption.
    - destruct (update_velocity_next (lastX st) (lastY st) now st E0) as [Ex Ey].
      fold st' in Ex, Ey. rewrite Ex, Ey. unfold F32.sub.
      rewrite !SFsub_diag by assumption. rewrite !zero_over_dt. split; reflexivity. }
  tauto.
Qed.

Lemma velocity_zero_when_stopped_witness :
  let st := set_lastTime (F64.of_Z 100)
              (set_lastPos (F32.of_Z 50) (F32.of_Z 20) default_state) in
  let st' := update_velocity (lastX st) (lastY st) (F64.of_Z 101) st in
  vx st' = F32.zero /\ vy st' = F32.zero /\
  lastX st' = lastX st /\ lastY st' = lastY st.
Proof.
  apply (velocity_zero_when_stopped (F64.of_Z 101)
           (set_lastTime (F64.of_Z 100)
              (set_lastPos (F32.of_Z 50) (F32.of_Z 20) default_state)));
    reflexivity.
Defined.

Lemma binary_round_not_nan prec emax s m e :
  0 < prec -> binary_round prec emax s m e <> S754_nan.
Proof.
  intros Hprec. unfold binary_round. destruct (shl_align _ _ _).
  apply binary_round_aux_not_nan; lia.
Qed.

Lemma SFdiv_finite_not_nan prec emax a d :
  0 < prec -> is_finite a = true ->
  d = S754_infinity false \/ (exists m e, d = S754_finite false m e) ->
  is_finite (SFdiv prec emax a d) = true \/
  exists s, SFdiv prec emax a d = S754_infinity s.
Proof.
  intros Hprec Ha Hd.
  destruct a as [sa | | | sa ma ea]; try discriminate;
    destruct Hd as [-> | (m & e & ->)]; try (left; reflexivity).
  unfold SFdiv.
  destruct (SFdiv_core_binary prec emax (Z.pos ma) ea (Z.pos m) e) as [[q e'] l] eqn:E.
  assert (Hq : 0 <= q).
  { unfold SFdiv_core_binary in E.
    set (s := ea - e - Z.min (fexp prec emax (Zdigits2 (Z.pos ma) + ea - (Zdigits2 (Z.pos m) + e)))
                             (ea - e)) in *.
    set (m' := match s with Z.pos _ => Z.shiftl (Z.pos ma) s | 0 => Z.pos ma | Z.neg _ => 0 end)
      in *.
    assert (Hm' : 0 <= m').
    { unfold m'. destruct s; try lia. apply Z.shiftl_nonneg. lia. }
    pose proof (Z_div_mod m' (Z.pos m) ltac:(lia)) as Hdm.
    destruct (Z.div_eucl m' (Z.pos m)) as [q0 r0].
    injection E as <- _ _. nia. }
  pose proof (binary_round_aux_not_nan prec emax (xorb sa false) q e' l Hprec Hq) as Hnn.
  destruct (binary_round_aux prec emax (xorb sa false) q e' l) as [ | s' | | ] eqn:Er;
    try (left; reflexivity); [right; eauto | congruence].
Qed.

(** X9.  The time step is never below [1e-6]: not for equal clock readings, a
    clock that runs backwards or a NaN reading.  With it the estimate divides
    by a positive number, and the velocity is never NaN as long as the
    position difference is finite (of magnitude at most [2^128]). *)
Theorem velocity_never_nan newX newY now st :
  is_finite newX = true -> is_finite newY = true ->
  mag_le 128 (F32.sub newX (lastX st)) ->
  mag_le 128 (F32.sub newY (lastY st)) ->
  let dt := F64.max EPSILON_TIME (F64.sub now (lastTime st)) in
  let st' := update_velocity newX newY now st in
  SFleb EPSILON_TIME dt = true /\
  is_nan (vx st') = false /\ is_nan (vy st') = false.
Proof.
  intros HX HY HdX HdY dt st'. split.
  { unfold dt, F64.max, F64.ltb, SFltb, SFleb.
    destruct (SFcompare EPSILON_TIME (F64.sub now (lastTime st))) as [[ | | ] | ] eqn:E;
      try reflexivity. rewrite E. reflexivity. }
  assert (Hgen : forall a, mag_le 128 a ->
                   is_nan (F64.to_F32 (F64.div (F64.of_F32 a) dt)) = false).
  { intros a Ha.
    assert (Hof : is_finite (F64.of_F32 a) = true).
    { destruct a as [sa | | | sa ma ea]; try contradiction; try reflexivity.
      destruct Ha as [He Hm]. cbn [F64.of_F32].
      destruct (binary_round_upper F64.prec F64.emax ltac:(reflexivity) sa ma ea 128)
        as [-> | (m' & e' & -> & _)]; try reflexivity;
        try (unfold F64.prec, F64.emax, emin; lia). }
    assert (Hdiv : is_nan (F64.div (F64.of_F32 a) dt) = false).
    { destruct (SFdiv_finite_not_nan F64.prec F64.emax (F64.of_F32 a) dt
                  ltac:(reflexivity) Hof (dt_positive _)) as [Hf | (s & Hs)].
      - unfold F64.div. destruct (SFdiv _ _ _ _); try discriminate; reflexivity.
      - unfold F64.div. rewrite Hs. reflexivity. }
    destruct (F64.div (F64.of_F32 a) dt) as [ | | | sd md ed] eqn:Ed;
      try discriminate; try reflexivity.
    cbn [F64.to_F32].
    pose proof (binary_round_not_nan F32.prec F32.emax sd md ed ltac:(reflexivity)) as Hn.
    destruct (binary_round F32.prec F32.emax sd md ed); try reflexivity. congruence. }
  destruct (F64.eqb (lastTime st) F64.zero) eqn:E0.
  - destruct (update_velocity_first newX newY now st E0 HX HY) as [Ex Ey].
    fold st' in Ex, Ey. rewrite Ex, Ey. split; reflexivity.
  - destruct (update_velocity_next newX newY now st E0) as [Ex Ey].
    fold st' dt in Ex, Ey. rewrite Ex, Ey. split; apply Hgen; assumption.
Qed.

Lemma velocity_never_nan_witness :
  let st := set_lastTime (F64.of_Z 100)
              (set_lastPos (F32.of_Z 50) (F32.of_Z 20) default_state) in
  let dt := F64.max EPSILON_TIME (F64.sub (F64.of_Z 100) (lastTime st)) in
  let st' := update_velocity (F32.of_Z 60) (F32.of_Z 20) (F64.of_Z 100) st in
  SFleb EPSILON_TIME dt = true /\
  is_nan (vx st') = false /\ is_nan (vy st') = false.
Proof.
  apply (velocity_never_nan (F32.of_Z 60) (F32.of_Z 20) (F64.of_Z 100)
           (set_lastTime (F64.of_Z 100)
              (set_lastPos (F32.of_Z 50) (F32.of_Z 20) default_state)));
    try reflexivity; vm_compute; split; discriminate.
Defined.

(** ** The border of the grid *)

Lemma SFdiv_diag s m e :
  SFdiv 24 128 (S754_finite s m e) (S754_finite s m e) = F32.one.
Proof.
  unfold SFdiv, SFdiv_core_binary.
  rewrite !Z.sub_diag.
  match goal with
  | |- context [IntDef.Z.div_eucl ?a ?b] =>
      change (IntDef.Z.div_eucl a b) with (Z.div_eucl (Z.shiftl (Z.pos m) 24) (Z.pos m))
  end.
  assert (E : Z.div_eucl (Z.shiftl (Z.pos m) 24) (Z.pos m) = (16777216, 0)).
  { rewrite Z.shiftl_mul_pow2 by lia. change (2 ^ 24) with 16777216.
    pose proof (Z.div_mul 16777216 (Z.pos m) ltac:(lia)) as Hq.
    pose proof (Z.mod_mul 16777216 (Z.pos m) ltac:(lia)) as Hr.
    unfold Z.div, Z.modulo in Hq, Hr.
    rewrite (Z.mul_comm (Z.pos m)).
    destruct (Z.div_eucl (16777216 * Z.pos m) (Z.pos m)). congruence. }
  rewrite E.
  replace (new_location (Z.pos m) 0) with loc_Exact
    by (unfold new_location; destruct (Z.even (Z.pos m)); reflexivity).
  destruct s; vm_compute; reflexivity.
Qed.

Lemma of_Z_div_diag n : 0 < n <= 2 ^ 31 -> F32.div (F32.of_Z n) (F32.of_Z n) = F32.one.
Proof.
  intros Hn. destruct (of_Z_spec n Hn) as (m & e & E & _).
  unfold F32.div, F32.of_Z, F32.prec, F32.emax. rewrite E. apply SFdiv_diag.
Qed.

Lemma of_Z_div_zero n : 0 < n <= 2 ^ 31 -> F32.div (F32.of_Z 0) (F32.of_Z n) = F32.zero.
Proof.
  intros Hn. destruct (of_Z_spec n Hn) as (m & e & E & _).
  unfold F32.div, F32.of_Z, F32.prec, F32.emax. rewrite E. reflexivity.
Qed.

(** X10.  The border of the mesh is exact.  In the first column [u] is 0 and
    [x] is [-0.5 * width], in the last column [u] is 1 and [x] is
    [0.5 * width]; in the first row [v] is 1 and [y] is [-0.5 * height], in
    the last row [v] is 0 and [y] is [0.5 * height]: no rounding error of
    [c / cols] or [r / rows] moves the texture or the outline at the
    edges. *)
Theorem grid_border_exact cols rows winW winH r c :
  1 <= cols < INT_MAX -> 1 <= rows < INT_MAX ->
  0 <= r <= rows -> 0 <= c <= cols ->
  exists p,
    nth_error (grid_verts cols rows winW winH) (Z.to_nat (r * (cols + 1) + c)) = Some p /\
    (c = 0 -> u p = F32.zero /\ x p = F32.mul (F32.opp F32.half) winW) /\
    (c = cols -> u p = F32.one /\ x p = F32.mul F32.half winW) /\
    (r = 0 -> v p = F32.one /\ y p = F32.mul (F32.opp F32.half) winH) /\
    (r = rows -> v p = F32.zero /\ y p = F32.mul F32.half winH).
Proof.
  unfold INT_MAX. intros Hcols Hrows Hr Hc.
  exists (grid_vertex cols rows winW winH r c).
  split; [apply grid_verts_nth; assumption | ].
  assert (P31 : 2 ^ 31 = 2147483648) by reflexivity.
  unfold grid_vertex; cbn [u v x y].
  split; [ | split; [ | split]]; intros ->.
  - rewrite of_Z_div_zero by lia. split; reflexivity.
  - rewrite of_Z_div_diag by lia. split; reflexivity.
  - rewrite of_Z_div_zero by lia. split; reflexivity.
  - rewrite of_Z_div_diag by lia. split; reflexivity.
Qed.

Lemma grid_border_exact_witness :
  exists p,
    nth_error (grid_verts 20 12 (F32.of_Z 800) (F32.of_Z 600))
              (Z.to_nat (12 * (20 + 1) + 20)) = Some p /\
    (20 = 0 -> u p = F32.zero /\ x p = F32.mul (F32.opp F32.half) (F32.of_Z 800)) /\
    (20 = 20 -> u p = F32.one /\ x p = F32.mul F32.half (F32.of_Z 800)) /\
    (12 = 0 -> v p = F32.one /\ y p = F32.mul (F32.opp F32.half) (F32.of_Z 600)) /\
    (12 = 12 -> v p = F32.zero /\ y p = F32.mul F32.half (F32.of_Z 600)).
Proof.
  apply (grid_border_exact 20 12 (F32.of_Z 800) (F32.of_Z 600) 12 20);
    unfold INT_MAX; lia.
Defined.

(** ** The index count and the draw call *)

(** X11.  [indexCount] is the size of the index array cast to [int]: for
    [cols] and [rows] from 0 to below [INT_MAX] (where the loops of
    [generateGrid] end) it is the number of indices, [cols * rows * 6], as
    long as that fits an [int], and that is the length of the index array
    uploaded. *)
Theorem indexCount_is_index_array_size st cols rows winW winH g :
  0 <= cols < INT_MAX -> 0 <= rows < INT_MAX -> cols * rows * 6 <= INT_MAX ->
  let r := generateGrid st cols rows winW winH g in
  indexCount (fst r) = cols * rows * 6 /\
  indexCount (fst r) = Z.of_nat (List.length (grid_idx cols rows)) /\
  In (ElementArrayBufferData (grid_idx cols rows)) (gl_log (snd r)).
Proof.
  intros Hc Hr Hfit r.
  destruct (generateGrid_uploads st cols rows winW winH g) as (_ & Hi & Hn & _).
  fold r in Hi, Hn.
  assert (Hlen : Z.of_nat (List.length (grid_idx cols rows)) = cols * rows * 6)
    by (rewrite length_grid_idx; nia).
  rewrite Hn, Hlen, wrap_int_small by (unfold INT_MAX in *; nia).
  repeat split. exact Hi.
Qed.

Lemma indexCount_is_index_array_size_witness :
  let r := generateGrid default_state 20 12 (F32.of_Z 800) (F32.of_Z 600) fresh_context in
  indexCount (fst r) = 20 * 12 * 6 /\
  indexCount (fst r) = Z.of_nat (List.length (grid_idx 20 12)) /\
  In (ElementArrayBufferData (grid_idx 20 12)) (gl_log (snd r)).
Proof.
  apply (indexCount_is_index_array_size default_state 20 12 (F32.of_Z 800) (F32.of_Z 600)
           fresh_context); unfold INT_MAX; lia.
Defined.

(** ** Plugin exit *)

Lemma release_spec st d :
  In d (release st) <->
  (d = DeleteBuffers (vbo st) /\ vbo st <> 0) \/
  (d = DeleteBuffers (ebo st) /\ ebo st <> 0) \/
  (d = DeleteVertexArrays (vao st) /\ vao st <> 0) \/
  (d = DeleteProgram (shader st) /\ shader st <> 0).
Proof.
  unfold release. rewrite !in_app_iff.
  destruct (Z.eqb_spec (vbo st) 0), (Z.eqb_spec (ebo st) 0),
           (Z.eqb_spec (vao st) 0), (Z.eqb_spec (shader st) 0);
    cbn [In]; intuition congruence.
Qed.

(** X12.  [PLUGIN_EXIT] releases every OpenGL object the registry holds and
    nothing else: each non-zero buffer, vertex array and program of each
    entry is deleted, no deletion names object 0 or an object that no entry
    holds, and the registry is empty afterwards. *)
Theorem PLUGIN_EXIT_releases_all g :
  snd (PLUGIN_EXIT g) = [] /\
  (forall d, In d (fst (PLUGIN_EXIT g)) ->
     deleted_name d <> 0 /\
     exists k st, In (k, st) g /\
       (d = DeleteBuffers (vbo st) \/ d = DeleteBuffers (ebo st) \/
        d = DeleteVertexArrays (vao st) \/ d = DeleteProgram (shader st))) /\
  (forall k st, In (k, st) g ->
     (vbo st <> 0 -> In (DeleteBuffers (vbo st)) (fst (PLUGIN_EXIT g))) /\
     (ebo st <> 0 -> In (DeleteBuffers (ebo st)) (fst (PLUGIN_EXIT g))) /\
     (vao st <> 0 -> In (DeleteVertexArrays (vao st)) (fst (PLUGIN_EXIT g))) /\
     (shader st <> 0 -> In (DeleteProgram (shader st)) (fst (PLUGIN_EXIT g)))).
Proof.
  unfold PLUGIN_EXIT. cbn [fst snd]. split; [reflexivity | split].
  - intros d Hd. apply in_flat_map in Hd. destruct Hd as ([k st] & Hin & Hd).
    cbn [snd] in Hd. apply release_spec in Hd. split.
    + destruct Hd as [[-> H] | [[-> H] | [[-> H] | [-> H]]]]; exact H.
    + exists k, st. split; [exact Hin | tauto].
  - intros k st Hin.
    repeat split; intros Hnz; apply in_flat_map; exists (k, st);
      (split; [exact Hin | cbn [snd]; apply release_spec; tauto]).
Qed.
